(** * Scheduling and delivery of posts (app.py)

    A shallow embedding of the parts of [app.py] that decide the delivery
    contract: the [tweets] table and the statements run against it, the
    submission handler [schedule_tweet], the listing [get_tweets], the media
    upload helper [upload_media_to_twitter], the immediate publish handler
    [post_now] and one iteration of the background thread
    [check_and_post_tweets].

    Conventions.
    - A Python [str] is a [string]; every [ascii] stands for one character,
      so [String.length] is Python's [len].
    - SQL [TEXT] values are compared the way SQLite compares them (memcmp):
      [String.leb].
    - The table [tweets] has an integer primary key: it is a finite map from
      ids to rows.
    - Everything outside the repository (the SQL engine, tweepy, werkzeug,
      the clock, the ISO-8601 parser) is a field of an explicit environment
      record, so that every behaviour of the outside world can be supplied. *)

From stdpp Require Import gmap strings list fin_maps sorting.
From Stdlib Require Import ZArith Ascii.

Local Open Scope Z_scope.

(** ** Rows of the table [tweets] *)

(** [CREATE TABLE tweets (id, content, scheduled_time, posted, image_paths,
    created_at)].  The key [id] is the key of the map below.  The column
    [image_paths] holds [json.dumps(image_paths)] or NULL; the embedding
    keeps the list that [json.loads] gives back. *)
Record row := Row {
  content : string;
  scheduled_time : string;
  posted : Z;
  image_paths : option (list string);
  created_at : string
}.

Global Instance row_eq_dec : EqDecision row.
Proof. solve_decision. Defined.

Abbreviation table := (gmap Z row).

(** The only state a row carries is the flag [posted]; a row is pending
    while the flag is 0. *)
Definition pending (r : row) : Prop := posted r = 0.

Global Instance pending_dec r : Decision (pending r).
Proof. unfold pending. apply _. Defined.

(** ** Statements run against the table *)

(** [WHERE posted = 0 AND scheduled_time <= now] *)
Definition is_due (now : string) (r : row) : bool :=
  (posted r =? 0) && String.leb (scheduled_time r) now.

(** [SELECT id, content, image_paths FROM tweets
     WHERE posted = 0 AND scheduled_time <= ?] *)
Definition select_due (now : string) (t : table)
  : list (Z * string * option (list string)) :=
  (λ p : Z * row, (p.1, content p.2, image_paths p.2))
    <$> filter (λ p : Z * row, is_due now p.2) (map_to_list t).

(** [UPDATE tweets SET posted = 1 WHERE id = ?] *)
Definition set_posted (r : row) : row :=
  {| content := content r; scheduled_time := scheduled_time r; posted := 1;
     image_paths := image_paths r; created_at := created_at r |}.

Definition update_posted (tweet_id : Z) (t : table) : table :=
  alter set_posted tweet_id t.

(** [lastrowid] of an [INSERT]: the table is never deleted from, so the
    AUTOINCREMENT key is one more than the largest key in use. *)
Definition max_id (t : table) : Z :=
  foldr Z.max 0 (map_to_list t).*1.

Definition lastrowid (t : table) : Z := max_id t + 1.

(** [INSERT INTO tweets (content, scheduled_time, posted, image_paths)
     VALUES (?, ?, 0, ?)]; [created_at] takes its default. *)
Definition insert_tweet (c st : string) (paths : option (list string))
    (created : string) (t : table) : Z * table :=
  let i := lastrowid t in
  (i, <[i := Row c st 0 paths created]> t).

(** ** The world the program runs in *)

(** Exceptions, by the library that raises them. *)
Inductive exn :=
  | DatabaseError      (* sqlite3 / psycopg2 *)
  | TweepyException    (* tweepy, v1.1 media upload or v2 create_tweet *)
  | ValueError         (* datetime.fromisoformat *)
  | OSError.           (* file.save *)

Inductive result (A : Type) :=
  | Ok (a : A)
  | Raise (e : exn).
Arguments Ok {A} a.
Arguments Raise {A} e.

(** Calls that reach the remote API.  [CreateTweet text None] is
    [client.create_tweet(text=content)]; [CreateTweet text (Some ids)] is
    [client.create_tweet(text=content, media_ids=media_ids)]. *)
Inductive api_call :=
  | MediaUpload (image_path : string)
  | CreateTweet (text : string) (media_ids : option (list Z)).

(** Lines written by [print]. *)
Inductive line :=
  | PostedTweet (tweet_id : Z)
  | SkippingTweet (tweet_id : Z)
  | ErrorPostingTweet (tweet_id : Z) (e : exn)
  | ClientNotInitialized
  | ErrorInSchedulerThread (e : exn)
  | ImageFileNotFound (image_path : string)
  | ErrorUploadingMedia (image_filename : string) (e : exn).

Record world := World {
  tweets : table;              (* committed contents of the table *)
  conn : table;                (* the table as the open connection sees it *)
  files : gmap string string;  (* stored files, by path *)
  api_calls : list api_call;   (* calls made so far, oldest first *)
  stdout : list line           (* lines printed so far, oldest first *)
}.

Definition set_tweets (t : table) (w : world) : world :=
  World t (conn w) (files w) (api_calls w) (stdout w).
Definition set_conn (t : table) (w : world) : world :=
  World (tweets w) t (files w) (api_calls w) (stdout w).
Definition set_files (f : gmap string string) (w : world) : world :=
  World (tweets w) (conn w) f (api_calls w) (stdout w).
Definition add_call (c : api_call) (w : world) : world :=
  World (tweets w) (conn w) (files w) (api_calls w ++ [c]) (stdout w).
Definition add_line (l : line) (w : world) : world :=
  World (tweets w) (conn w) (files w) (api_calls w) (stdout w ++ [l]).

(** Module-level configuration: whether [client] and [api_v1] were
    initialised from the credentials. *)
Record config := Config {
  client : bool;
  api_v1 : bool
}.

(** ** State and exceptions *)

Definition M (A : Type) : Type := world → result A * world.

Global Instance M_ret : MRet M := λ A a w, (Ok a, w).

Global Instance M_bind : MBind M := λ A B k m w,
  match m w with
  | (Ok a, w') => k a w'
  | (Raise e, w') => (Raise e, w')
  end.

Definition raise {A} (e : exn) : M A := λ w, (Raise e, w).

(** [try: body except Exception as e: handler] *)
Definition try_except {A} (body : M A) (handler : exn → M A) : M A :=
  λ w, match body w with
       | (Ok a, w') => (Ok a, w')
       | (Raise e, w') => handler e w'
       end.

(** [for x in xs: body] *)
Fixpoint for_each {A} (xs : list A) (body : A → M unit) : M unit :=
  match xs with
  | [] => mret tt
  | x :: xs' => body x;; for_each xs' body
  end.

(** An operation of a library that raises when the environment says so. *)
Definition may_raise (fault : option exn) : M unit :=
  match fault with
  | Some e => raise e
  | None => mret tt
  end.

(** Reading and changing the world. *)
Definition gets {A} (f : world → A) : M A := λ w, (Ok (f w), w).
Definition modify (f : world → world) : M unit := λ w, (Ok tt, f w).

Definition print (l : line) : M unit := modify (add_line l).

(** *** Database driver *)

(** [conn = get_db_connection(); c = conn.cursor()]: a new connection sees
    the committed table. *)
Definition get_db_connection (fault : option exn) : M unit :=
  may_raise fault;;
  t ← gets tweets;
  modify (set_conn t).

Definition execute_select (fault : option exn) (now : string)
  : M (list (Z * string * option (list string))) :=
  may_raise fault;;
  t ← gets conn;
  mret (select_due now t).

Definition execute_update (fault : option exn) (tweet_id : Z) : M unit :=
  may_raise fault;;
  t ← gets conn;
  modify (set_conn (update_posted tweet_id t)).

Definition execute_insert (fault : option exn) (c st : string)
    (paths : option (list string)) (created : string) : M Z :=
  may_raise fault;;
  t ← gets conn;
  modify (set_conn (insert_tweet c st paths created t).2);;
  mret (insert_tweet c st paths created t).1.

(** [conn.commit()]: what the connection sees becomes the committed table. *)
Definition commit (fault : option exn) : M unit :=
  may_raise fault;;
  t ← gets conn;
  modify (set_tweets t).

(** *** File storage *)

Definition UPLOAD_FOLDER : string := "uploads".

(** [os.path.join(folder, name)] (posix). *)
Definition path_join (folder name : string) : string :=
  match name with
  | String "/"%char _ => name
  | _ => folder +:+ "/" +:+ name
  end.

(** [os.path.exists(path)] *)
Definition path_exists (path : string) : M bool :=
  gets (λ w, bool_decide (is_Some (files w !! path))).

(** What one [file.save(filepath)] does: it writes the file, or it raises
    and leaves the path untouched ([None]) or holding what was written
    before the failure. *)
Inductive save_result :=
  | Saved
  | SaveFailed (e : exn) (left : option string).

(** [file.save(filepath)] *)
Definition save (outcome : save_result) (filepath data : string) : M unit :=
  match outcome with
  | Saved => modify (λ w, set_files (<[filepath := data]> (files w)) w)
  | SaveFailed e None => raise e
  | SaveFailed e (Some partial) =>
      modify (λ w, set_files (<[filepath := partial]> (files w)) w);;
      raise e
  end.

(** *** Remote API *)

(** [api_v1.media_upload(image_path).media_id] *)
Definition media_upload (outcome : result Z) (image_path : string) : M Z :=
  modify (add_call (MediaUpload image_path));;
  match outcome with
  | Ok media_id => mret media_id
  | Raise e => raise e
  end.

(** [client.create_tweet(text=..., media_ids=...)]; [media_ids = None] when
    the keyword argument is left out. *)
Definition create_tweet (outcome : result string) (text : string)
    (media_ids : option (list Z)) : M string :=
  modify (add_call (CreateTweet text media_ids));;
  match outcome with
  | Ok tweet_id => mret tweet_id
  | Raise e => raise e
  end.

(** ** [upload_media_to_twitter] *)

(** The body of [for image_filename in image_paths], with the list
    [media_ids] built so far; [n] counts the references already seen and
    [outcome n] is what the remote API answers for the current one. *)
Fixpoint upload_each (outcome : nat → result Z) (n : nat)
    (image_paths : list string) (media_ids : list Z) : M (list Z) :=
  match image_paths with
  | [] => mret media_ids
  | image_filename :: rest =>
      media_ids' ←
        try_except
          (let image_path := path_join UPLOAD_FOLDER image_filename in
           found ← path_exists image_path;
           if found : bool then
             media_id ← media_upload (outcome n) image_path;
             mret (media_ids ++ [media_id])
           else
             print (ImageFileNotFound image_path);;
             mret media_ids)
          (λ e, print (ErrorUploadingMedia image_filename e);;
                mret media_ids);
      upload_each outcome (S n) rest media_ids'
  end.

Definition upload_media_to_twitter (cfg : config) (outcome : nat → result Z)
    (image_paths : list string) : M (list Z) :=
  if negb (api_v1 cfg) || bool_decide (image_paths = [])
  then mret []
  else upload_each outcome 0 image_paths [].

(** Truth value of [media_ids] in [if media_ids:]: neither [None] nor []. *)
Definition truthy (media_ids : option (list Z)) : bool :=
  match media_ids with
  | Some (_ :: _) => true
  | _ => false
  end.

(** [if media_ids: client.create_tweet(text=content, media_ids=media_ids)
     else: client.create_tweet(text=content)] *)
Definition post_tweet (outcome : result string) (text : string)
    (media_ids : option (list Z)) : M string :=
  if truthy media_ids
  then create_tweet outcome text media_ids
  else create_tweet outcome text None.

(** [upload_media_to_twitter(image_paths) if image_paths else None] *)
Definition upload_if_any (cfg : config) (outcome : nat → result Z)
    (image_paths : list string) : M (option (list Z)) :=
  match image_paths with
  | [] => mret None
  | _ :: _ => media_ids ← upload_media_to_twitter cfg outcome image_paths;
              mret (Some media_ids)
  end.

(** ** [check_and_post_tweets] *)

(** What the outside world does during one iteration of the loop.  A row is
    handled at most once per iteration, so the answers of the remote API and
    of the database driver are given per row id. *)
Record tick_env := TickEnv {
  now : string;                           (* datetime.now().isoformat() *)
  connect_fault : option exn;
  select_fault : option exn;
  upload_outcome : Z → nat → result Z;    (* media_upload, n-th image of a row *)
  tweet_outcome : Z → result string;      (* create_tweet for a row *)
  update_fault : Z → option exn;          (* UPDATE for a row *)
  commit_fault : Z → option exn;          (* conn.commit() after it *)
  close_fault : option exn                (* conn.close() *)
}.

(** The body of [for tweet_id, content, image_paths_json in tweets_to_post]. *)
Definition process_tweet (cfg : config) (e : tick_env)
    (tw : Z * string * option (list string)) : M unit :=
  let '(tweet_id, content, image_paths_json) := tw in
  if client cfg then
    try_except
      (if (String.length content <=? 280)%nat then
         let image_paths := default [] image_paths_json in
         media_ids ← upload_if_any cfg (upload_outcome e tweet_id) image_paths;
         post_tweet (tweet_outcome e tweet_id) content media_ids;;
         execute_update (update_fault e tweet_id) tweet_id;;
         commit (commit_fault e tweet_id);;
         print (PostedTweet tweet_id)
       else
         print (SkippingTweet tweet_id);;
         execute_update (update_fault e tweet_id) tweet_id;;
         commit (commit_fault e tweet_id))
      (λ ex, print (ErrorPostingTweet tweet_id ex))
  else
    print ClientNotInitialized.

(** The body of [while True], up to [time.sleep(60)]. *)
Definition tick (cfg : config) (e : tick_env) : M unit :=
  try_except
    (get_db_connection (connect_fault e);;
     tweets_to_post ← execute_select (select_fault e) (now e);
     for_each tweets_to_post (process_tweet cfg e);;
     may_raise (close_fault e))
    (λ ex, print (ErrorInSchedulerThread ex)).

(** [n] iterations of [while True], the [k]-th one in the world [env k]. *)
Fixpoint check_and_post_tweets (cfg : config) (env : nat → tick_env)
    (k n : nat) : M unit :=
  match n with
  | O => mret tt
  | S n' => tick cfg (env k);; check_and_post_tweets cfg env (S k) n'
  end.

(** ** String helpers of the request handlers *)

(** [str.isspace] on one character (code points below 256). *)
Definition isspace (c : ascii) : bool :=
  let n := N_of_ascii c in
  ((9 <=? n) && (n <=? 13) || (28 <=? n) && (n <=? 32)
   || (n =? 133) || (n =? 160))%N.

Fixpoint lstrip (s : string) : string :=
  match s with
  | EmptyString => EmptyString
  | String c s' => if isspace c then lstrip s' else s
  end.

Fixpoint rstrip (s : string) : string :=
  match s with
  | EmptyString => EmptyString
  | String c s' =>
      match rstrip s' with
      | EmptyString => if isspace c then EmptyString else String c EmptyString
      | r => String c r
      end
  end.

(** [s.strip()] *)
Definition strip (s : string) : string := rstrip (lstrip s).

(** [s.replace('Z', '+00:00')] *)
Fixpoint replace_Z (s : string) : string :=
  match s with
  | EmptyString => EmptyString
  | String c s' =>
      if Ascii.eqb c "Z" then "+00:00" +:+ replace_Z s'
      else String c (replace_Z s')
  end.

(** [c in s] *)
Fixpoint contains (c : ascii) (s : string) : bool :=
  match s with
  | EmptyString => false
  | String c' s' => Ascii.eqb c c' || contains c s'
  end.

(** [s.split(c)[-1]] *)
Fixpoint last_segment (c : ascii) (s : string) : string :=
  match s with
  | EmptyString => EmptyString
  | String c' s' =>
      if contains c s then last_segment c s' else s
  end.

(** [path.split('/')[-1] if '/' in path
     else path.split('\\')[-1] if '\\' in path else path] *)
Definition file_name_of (path : string) : string :=
  if contains "/" path then last_segment "/" path
  else if contains "\" path then last_segment "\" path
  else path.

(** ** Requests, responses and their environment *)

(** A [datetime]: the wall-clock reading in microseconds and the UTC offset
    of its [tzinfo] ([None] for a naive value). *)
Record datetime := Datetime {
  wall : Z;
  utcoffset : option Z
}.

(** An uploaded file of a multipart form. *)
Record file_storage := FileStorage {
  filename : string;
  stream : string
}.

(** The two shapes of a request body: [request.json] with the keys
    [content], [scheduled_time], [image_paths], or a form with the same two
    fields and the files sent as [images[]].  A key that is absent is
    [None]. *)
Inductive request :=
  | JsonBody (c st : option string) (paths : list string)
  | FormBody (c st : option string) (images : list file_storage).

Definition form_field_content (rq : request) : option string :=
  match rq with JsonBody c _ _ | FormBody c _ _ => c end.

Definition form_field_scheduled_time (rq : request) : option string :=
  match rq with JsonBody _ st _ | FormBody _ st _ => st end.

Inductive response :=
  | Scheduled (id : Z)              (* 200, 'Tweet scheduled successfully' *)
  | PostedNow (tweet_id : string)   (* 200, 'Tweet posted successfully' *)
  | BadRequest (error : string)     (* 400 with a message of the handler *)
  | BadRequestExn (e : exn)         (* 400 with str(e) *)
  | ServerError (error : string).   (* 500 *)

(** What the outside world does while one request is handled. *)
Record request_env := RequestEnv {
  secure_filename : string → string;          (* werkzeug.utils *)
  strftime_now : nat → string;                (* '%Y%m%d_%H%M%S_' for the n-th file *)
  save_outcome : nat → save_result;           (* file.save of the n-th file *)
  fromisoformat : string → option datetime;   (* None: ValueError *)
  utcnow : Z;                                 (* the clock, in microseconds *)
  local_utcoffset : Z;                        (* offset of the local zone *)
  current_timestamp : string;                 (* CURRENT_TIMESTAMP *)
  rq_connect_fault : option exn;
  rq_insert_fault : option exn;
  rq_commit_fault : option exn;
  rq_upload_outcome : nat → result Z;
  rq_tweet_outcome : result string
}.

(** [datetime.now(tz)] *)
Definition datetime_now (e : request_env) (tz : option Z) : datetime :=
  Datetime (utcnow e + default (local_utcoffset e) tz) tz.

(** [a < b] for two values that carry the same [tzinfo]: the wall-clock
    readings are compared. *)
Definition datetime_lt (a b : datetime) : bool := wall a <? wall b.

(** The loop over [request.files.getlist('images[]')]. *)
Fixpoint save_uploads (e : request_env) (n : nat) (fs : list file_storage)
    (image_paths : list string) : M (list string) :=
  match fs with
  | [] => mret image_paths
  | file :: rest =>
      if bool_decide (filename file = "") then
        save_uploads e (S n) rest image_paths
      else
        let name := strftime_now e n +:+ secure_filename e (filename file) in
        let filepath := path_join UPLOAD_FOLDER name in
        save (save_outcome e n) filepath (stream file);;
        save_uploads e (S n) rest (image_paths ++ [name])
  end.

(** [image_paths] of a request: given in a JSON body, the stored names of
    the saved files for a form. *)
Definition request_image_paths (e : request_env) (rq : request)
  : M (list string) :=
  match rq with
  | JsonBody _ _ paths => mret paths
  | FormBody _ _ images => save_uploads e 0 images []
  end.

(** ** [schedule_tweet] *)

Definition schedule_tweet (e : request_env) (rq : request) : M response :=
  try_except
    (image_paths ← request_image_paths e rq;
     let content := strip (default "" (form_field_content rq)) in
     let scheduled_time := default "" (form_field_scheduled_time rq) in
     if bool_decide (content = "") then
       mret (BadRequest "Tweet content is required")
     else if bool_decide (scheduled_time = "") then
       mret (BadRequest "Scheduled time is required")
     else if (4 <? length image_paths)%nat then
       mret (BadRequest "Maximum 4 images allowed")
     else
       match fromisoformat e (replace_Z scheduled_time) with
       | None => raise ValueError
       | Some scheduled_datetime =>
           let now := datetime_now e (utcoffset scheduled_datetime) in
           if datetime_lt scheduled_datetime now then
             mret (BadRequest "Scheduled time must be in the future")
           else
             get_db_connection (rq_connect_fault e);;
             let image_paths_json :=
               match image_paths with [] => None | _ => Some image_paths end in
             tweet_id ← execute_insert (rq_insert_fault e) content
                          scheduled_time image_paths_json (current_timestamp e);
             commit (rq_commit_fault e);;
             mret (Scheduled tweet_id)
       end)
    (λ ex, mret (BadRequestExn ex)).

(** ** [get_tweets] *)

(** One element of the JSON array the listing returns. *)
Record tweet_json := TweetJson {
  json_id : Z;
  json_content : string;
  json_scheduled_time : string;
  json_posted : bool;
  json_image_paths : list string;
  json_created_at : option string
}.

Definition to_json (p : Z * row) : tweet_json :=
  {| json_id := p.1;
     json_content := content p.2;
     json_scheduled_time := scheduled_time p.2;
     json_posted := negb (posted p.2 =? 0);
     json_image_paths := default [] (image_paths p.2);
     json_created_at :=
       if bool_decide (created_at p.2 = "") then None
       else Some (created_at p.2) |}.

(** [ORDER BY scheduled_time DESC] *)
Definition later_first (p q : Z * row) : Prop :=
  String.leb (scheduled_time q.2) (scheduled_time p.2).

Global Instance later_first_dec p q : Decision (later_first p q).
Proof. unfold later_first. apply _. Defined.

(** [SELECT ... FROM tweets ORDER BY scheduled_time DESC LIMIT 50] *)
Definition get_tweets (t : table) : list tweet_json :=
  to_json <$> take 50 (merge_sort later_first (map_to_list t)).

(** ** [post_now] *)

Definition post_now (cfg : config) (e : request_env) (rq : request)
  : M response :=
  if negb (client cfg) then
    mret (ServerError "Twitter API credentials not configured")
  else
    try_except
      (image_paths ← request_image_paths e rq;
       let content := strip (default "" (form_field_content rq)) in
       if bool_decide (content = "") then
         mret (BadRequest "Tweet content is required")
       else if (280 <? String.length content)%nat then
         mret (BadRequest "Tweet content exceeds 280 characters")
       else if (4 <? length image_paths)%nat then
         mret (BadRequest "Maximum 4 images allowed")
       else
         let image_filenames := file_name_of <$> image_paths in
         media_ids ← upload_if_any cfg (rq_upload_outcome e) image_filenames;
         tweet_id ← post_tweet (rq_tweet_outcome e) content media_ids;
         mret (PostedNow tweet_id))
      (λ ex, mret (BadRequestExn ex)).

(** ** What the media upload is expected to give

    The contract of the upload helper, reference by reference: a reference
    is [stored] when its file exists in the upload folder; a stored
    reference is sent to the remote API, and yields a handle when the API
    answers.  The [n]-th reference gets the answer [outcome n]. *)

Definition stored (fs : gmap string string) (image_filename : string) : bool :=
  bool_decide (is_Some (fs !! path_join UPLOAD_FOLDER image_filename)).

Fixpoint handles_obtained (fs : gmap string string) (outcome : nat → result Z)
    (n : nat) (image_paths : list string) : list Z :=
  match image_paths with
  | [] => []
  | p :: rest =>
      match stored fs p, outcome n with
      | true, Ok media_id => media_id :: handles_obtained fs outcome (S n) rest
      | _, _ => handles_obtained fs outcome (S n) rest
      end
  end.

Definition uploads_attempted (fs : gmap string string)
    (image_paths : list string) : list api_call :=
  (λ p, MediaUpload (path_join UPLOAD_FOLDER p)) <$> filter (λ p, stored fs p) image_paths.

Fixpoint upload_lines (fs : gmap string string) (outcome : nat → result Z)
    (n : nat) (image_paths : list string) : list line :=
  match image_paths with
  | [] => []
  | p :: rest =>
      match stored fs p, outcome n with
      | true, Ok _ => upload_lines fs outcome (S n) rest
      | true, Raise e => ErrorUploadingMedia p e :: upload_lines fs outcome (S n) rest
      | false, _ =>
          ImageFileNotFound (path_join UPLOAD_FOLDER p)
            :: upload_lines fs outcome (S n) rest
      end
  end.

(** The same for the whole helper, which gives up at once when [api_v1]
    was not initialised. *)
Definition media_ids_resolved (cfg : config) (fs : gmap string string)
    (outcome : nat → result Z) (image_paths : list string) : list Z :=
  if api_v1 cfg then handles_obtained fs outcome 0 image_paths else [].

Definition calls_of_upload (cfg : config) (fs : gmap string string)
    (image_paths : list string) : list api_call :=
  if api_v1 cfg then uploads_attempted fs image_paths else [].

Definition lines_of_upload (cfg : config) (fs : gmap string string)
    (outcome : nat → result Z) (image_paths : list string) : list line :=
  if api_v1 cfg then upload_lines fs outcome 0 image_paths else [].


(** A call the publisher may make: any media upload, and [create_tweet] with
    a text of at most 280 characters and either no [media_ids] argument or a
    non-empty one. *)
Definition well_formed_call (c : api_call) : Prop :=
  match c with
  | MediaUpload _ => True
  | CreateTweet text media_ids =>
      (String.length text ≤ 280)%nat ∧ media_ids ≠ Some []
  end.

(** Row [j] as the committed table and the open connection both have it. *)
Definition row_is (j : Z) (x : option row) (w : world) : Prop :=
  tweets w !! j = x ∧ conn w !! j = x.

(** ** What a request leaves in the upload folder

    The names under which the files of a form are stored, and the upload
    folder after they were saved; the [n]-th file gets the prefix
    [strftime_now e n]. *)

Definition stored_name (e : request_env) (n : nat) (file : file_storage)
  : string :=
  strftime_now e n +:+ secure_filename e (filename file).

Fixpoint stored_names (e : request_env) (n : nat) (fs : list file_storage)
  : list string :=
  match fs with
  | [] => []
  | file :: rest =>
      if bool_decide (filename file = "") then stored_names e (S n) rest
      else stored_name e n file :: stored_names e (S n) rest
  end.

Fixpoint files_after_saving (e : request_env) (n : nat)
    (fs : list file_storage) (store : gmap string string)
  : gmap string string :=
  match fs with
  | [] => store
  | file :: rest =>
      if bool_decide (filename file = "") then
        files_after_saving e (S n) rest store
      else
        files_after_saving e (S n) rest
          (<[path_join UPLOAD_FOLDER (stored_name e n file) := stream file]>
             store)
  end.

Definition image_paths_of (e : request_env) (rq : request) : list string :=
  match rq with
  | JsonBody _ _ paths => paths
  | FormBody _ _ images => stored_names e 0 images
  end.

Definition files_after_request (e : request_env) (rq : request)
    (store : gmap string string) : gmap string string :=
  match rq with
  | JsonBody _ _ _ => store
  | FormBody _ _ images => files_after_saving e 0 images store
  end.

(** The same when a [file.save] may raise: the exception that ends the loop
    over the files, if any, and the upload folder the loop leaves. *)
Fixpoint uploads_raise (e : request_env) (n : nat) (fs : list file_storage)
  : option exn :=
  match fs with
  | [] => None
  | file :: rest =>
      if bool_decide (filename file = "") then uploads_raise e (S n) rest
      else
        match save_outcome e n with
        | Saved => uploads_raise e (S n) rest
        | SaveFailed ex _ => Some ex
        end
  end.

Fixpoint files_left (e : request_env) (n : nat) (fs : list file_storage)
    (store : gmap string string) : gmap string string :=
  match fs with
  | [] => store
  | file :: rest =>
      if bool_decide (filename file = "") then files_left e (S n) rest store
      else
        let filepath := path_join UPLOAD_FOLDER (stored_name e n file) in
        match save_outcome e n with
        | Saved => files_left e (S n) rest (<[filepath := stream file]> store)
        | SaveFailed _ None => store
        | SaveFailed _ (Some partial) => <[filepath := partial]> store
        end
  end.

Definition request_raises (e : request_env) (rq : request) : option exn :=
  match rq with
  | JsonBody _ _ _ => None
  | FormBody _ _ images => uploads_raise e 0 images
  end.

Definition files_left_by_request (e : request_env) (rq : request)
    (store : gmap string string) : gmap string string :=
  match rq with
  | JsonBody _ _ _ => store
  | FormBody _ _ images => files_left e 0 images store
  end.

(** The content and the scheduled time a handler works with. *)
Definition content_of (rq : request) : string :=
  strip (default "" (form_field_content rq)).

Definition scheduled_time_of (rq : request) : string :=
  default "" (form_field_scheduled_time rq).

(** The value stored in the column [image_paths]. *)
Definition image_paths_json_of (paths : list string) : option (list string) :=
  match paths with
  | [] => None
  | _ :: _ => Some paths
  end.

(** A 400 response with one of the messages of the handler's own tests. *)
Definition validation_error (resp : result response) : Prop :=
  match resp with
  | Ok (BadRequest _) => True
  | _ => False
  end.

(** The [media_ids] argument of [create_tweet] for the handles obtained:
    left out when there is none. *)
Definition media_argument (handles : list Z) : option (list Z) :=
  match handles with
  | [] => None
  | _ :: _ => Some handles
  end.

(** A response with status 400. *)
Definition rejected (resp : result response) : Prop :=
  match resp with
  | Ok (BadRequest _) | Ok (BadRequestExn _) => True
  | _ => False
  end.

(** ** Initialisation of the clients

    The module-level block that sets [client] and [api_v1]: both start as
    [None]; when all five credentials are set, [tweepy.Client],
    [tweepy.OAuth1UserHandler] and [tweepy.API] are built in this order
    inside one [try], and an exception of any of them is printed and ends
    the block. *)

Record credentials := Credentials {
  BEARER_TOKEN : option string;
  API_KEY : option string;
  API_SECRET : option string;
  ACCESS_TOKEN : option string;
  ACCESS_TOKEN_SECRET : option string
}.

(** Truth value of [os.getenv(...)]: set and not empty. *)
Definition is_set (v : option string) : bool :=
  match v with
  | Some (String _ _) => true
  | _ => false
  end.

(** [all([BEARER_TOKEN, API_KEY, API_SECRET, ACCESS_TOKEN,
     ACCESS_TOKEN_SECRET])] *)
Definition all_set (c : credentials) : bool :=
  is_set (BEARER_TOKEN c) && is_set (API_KEY c) && is_set (API_SECRET c)
  && is_set (ACCESS_TOKEN c) && is_set (ACCESS_TOKEN_SECRET c).

(** What the three constructors of tweepy do. *)
Record tweepy_env := TweepyEnv {
  client_fault : option exn;          (* tweepy.Client(...) *)
  auth_fault : option exn;            (* tweepy.OAuth1UserHandler(...) *)
  api_fault : option exn              (* tweepy.API(auth, ...) *)
}.

(** The configuration the block leaves, and the exception it printed. *)
Definition init_clients (c : credentials) (t : tweepy_env)
  : config * option exn :=
  if all_set c then
    match client_fault t with
    | Some ex => (Config false false, Some ex)
    | None =>
        match auth_fault t with
        | Some ex => (Config true false, Some ex)
        | None =>
            match api_fault t with
            | Some ex => (Config true false, Some ex)
            | None => (Config true true, None)
            end
        end
    end
  else (Config false false, None).

(** ** Reading the record of calls *)

(** The texts sent with [create_tweet], oldest first. *)
Fixpoint texts_posted (calls : list api_call) : list string :=
  match calls with
  | [] => []
  | CreateTweet text _ :: rest => text :: texts_posted rest
  | MediaUpload _ :: rest => texts_posted rest
  end.

(** The paths sent with [media_upload], oldest first. *)
Fixpoint paths_uploaded (calls : list api_call) : list string :=
  match calls with
  | [] => []
  | MediaUpload path :: rest => path :: paths_uploaded rest
  | CreateTweet _ _ :: rest => paths_uploaded rest
  end.

(** [ORDER BY scheduled_time DESC], read on the elements of the listing. *)
Definition listed_before (a b : tweet_json) : Prop :=
  String.leb (json_scheduled_time b) (json_scheduled_time a) = true.

(** ** Rows the program writes

    What holds of every row [schedule_tweet] inserts: the content and the
    scheduled time are not empty, the flag is 0 or 1, and the column
    [image_paths] is NULL or holds between one and four names. *)
Definition row_ok (r : row) : Prop :=
  content r ≠ "" ∧ scheduled_time r ≠ ""
  ∧ (posted r = 0 ∨ posted r = 1)
  ∧ image_paths r ≠ Some []
  ∧ (length (default [] (image_paths r)) ≤ 4)%nat.

Definition table_ok (t : table) : Prop :=
  ∀ i r, t !! i = Some r → row_ok r.

(** A call with at most four media ids. *)
Definition at_most_four_media (c : api_call) : Prop :=
  match c with
  | CreateTweet _ (Some media_ids) => (length media_ids ≤ 4)%nat
  | _ => True
  end.

(** ** Sample data *)

(** A text of 281 characters. *)
Definition oversized : string := String.concat "" (replicate 281 "a").

Definition hello_row : row :=
  Row "Hello" "2025-01-01T10:00:00" 0 None "2024-12-31 08:00:00".
Definition oversized_row : row :=
  Row oversized "2025-01-01T09:00:00" 0 None "2024-12-31 08:05:00".
Definition picture_row : row :=
  Row "pic" "2025-01-01T09:30:00" 0 (Some ["a.png"]) "2024-12-31 08:10:00".

(** Three pending rows; the file of [picture_row] was never stored. *)
Definition sample_table : table :=
  <[1 := hello_row]> (<[2 := oversized_row]> (<[3 := picture_row]> ∅)).

Definition sample_world : world := World sample_table ∅ ∅ [] [].

Definition configured : config := Config true true.
Definition not_configured : config := Config false false.

(** An iteration at noon in which every library call succeeds. *)
Definition healthy_env : tick_env :=
  TickEnv "2025-01-01T12:00:00.000100" None None
    (λ _ _, Ok 7) (λ _, Ok "999") (λ _, None) (λ _, None) None.

(** The same iteration with a remote API that raises on every
    [create_tweet]. *)
Definition failing_env : tick_env :=
  TickEnv "2025-01-01T12:00:00.000100" None None
    (λ _ _, Ok 7) (λ _, Raise TweepyException) (λ _, None) (λ _, None) None.

(** A clock at 2025-01-01T12:00:00Z, a parser that knows a few texts, and
    libraries that succeed. *)
Definition sample_fromisoformat (s : string) : option datetime :=
  if String.eqb s "2030-01-01T00:00:00" then
    Some (Datetime 1893456000000000 None)
  else if String.eqb s "2020-01-01T00:00:00+00:00" then
    Some (Datetime 1577836800000000 (Some 0))
  else if String.eqb s "2025-01-01T12:00:00+00:00" then
    Some (Datetime 1735732800000000 (Some 0))
  else if String.eqb s "2025-01-01 13:00:00" then
    Some (Datetime 1735736400000000 None)
  else if String.eqb s "2025-01-01T12:00:00.000100" then
    Some (Datetime 1735732800000100 None)
  else None.

Definition sample_request_env : request_env :=
  RequestEnv (λ name, name) (λ _, "20250101_120000_") (λ _, Saved)
    sample_fromisoformat 1735732800000000 0 "2025-01-01 12:00:00" None None None
    (λ _, Ok 7) (Ok "999").

(** The same with a database that refuses the connection. *)
Definition broken_store_env : request_env :=
  RequestEnv (λ name, name) (λ _, "20250101_120000_") (λ _, Saved)
    sample_fromisoformat 1735732800000000 0 "2025-01-01 12:00:00" (Some DatabaseError) None None
    (λ _, Ok 7) (Ok "999").

Definition cat_png : file_storage := FileStorage "cat.png" "PNG".

(** The same clock one hour earlier, at 11:00. *)
Definition eleven_env : request_env :=
  RequestEnv (λ name, name) (λ _, "20250101_110000_") (λ _, Saved)
    sample_fromisoformat 1735729200000000 0 "2025-01-01 11:00:00"
    None None None (λ _, Ok 7) (Ok "999").

(** A file system that refuses the second file of a form. *)
Definition second_save_fails_env : request_env :=
  RequestEnv (λ name, name) (λ _, "20250101_120000_")
    (λ n, if (n =? 1)%nat then SaveFailed OSError None else Saved)
    sample_fromisoformat 1735732800000000 0 "2025-01-01 12:00:00"
    None None None (λ _, Ok 7) (Ok "999").

Definition empty_world : world := World ∅ ∅ ∅ [] [].

(** The sample world with the image of row 3 in the upload folder. *)
Definition picture_world : world :=
  World sample_table ∅ (<["uploads/a.png" := "PNG"]> ∅) [] [].

(** An iteration in which every [create_tweet] succeeds and every
    [UPDATE] raises. *)
Definition update_raises_env : tick_env :=
  TickEnv "2025-01-01T12:00:00.000100" None None
    (λ _ _, Ok 7) (λ _, Ok "999") (λ _, Some DatabaseError) (λ _, None) None.

(** An iteration in which the database refuses the connection. *)
Definition no_connection_env : tick_env :=
  TickEnv "2025-01-01T12:00:00.000100" (Some DatabaseError) None
    (λ _ _, Ok 7) (λ _, Ok "999") (λ _, None) (λ _, None) None.

Definition full_credentials : credentials :=
  Credentials (Some "b") (Some "k") (Some "s") (Some "t") (Some "ts").

Definition dog_png : file_storage := FileStorage "dog.png" "PNG2".

(** * Properties *)

(** ** The order on [TEXT] values *)

Lemma ascii_compare_refl (a : ascii) : Ascii.compare a a = Eq.
Proof. unfold Ascii.compare. apply N.compare_refl. Qed.

Lemma string_compare_not_gt_trans (a b c : string) :
  String.compare a b ≠ Gt → String.compare b c ≠ Gt → String.compare a c ≠ Gt.
Proof.
  revert b c. induction a as [|x a IH]; intros [|y b] [|z c]; simpl; try done.
  destruct (Ascii.compare x y) eqn:Hxy; try done.
  - apply Ascii.compare_eq_iff in Hxy as ->.
    destruct (Ascii.compare y z); eauto.
  - destruct (Ascii.compare y z) eqn:Hyz; try done.
    + apply Ascii.compare_eq_iff in Hyz as <-. by rewrite Hxy.
    + unfold Ascii.compare in *.
      rewrite N.compare_lt_iff in Hxy, Hyz.
      assert (N_of_ascii x < N_of_ascii z)%N as Hxz by lia.
      apply N.compare_lt_iff in Hxz. by rewrite Hxz.
Qed.

Lemma string_leb_true (a b : string) :
  String.leb a b = true ↔ String.compare a b ≠ Gt.
Proof. unfold String.leb. destruct (String.compare a b); naive_solver. Qed.

Lemma string_leb_trans (a b c : string) :
  String.leb a b = true → String.leb b c = true → String.leb a c = true.
Proof. rewrite !string_leb_true. apply string_compare_not_gt_trans. Qed.


(** ** The statements *)

Lemma is_due_spec (now : string) (r : row) :
  is_due now r = true ↔ pending r ∧ String.leb (scheduled_time r) now = true.
Proof.
  unfold is_due, pending. rewrite andb_true_iff, Z.eqb_eq. done.
Qed.

Lemma elem_of_select_due (now : string) (t : table) tw :
  tw ∈ select_due now t ↔
  ∃ i r, t !! i = Some r ∧ is_due now r = true
         ∧ tw = (i, content r, image_paths r).
Proof.
  unfold select_due. rewrite list_elem_of_fmap. split.
  - intros ([i r] & -> & Hin). apply list_elem_of_filter in Hin as [Hd Hin].
    apply elem_of_map_to_list in Hin. exists i, r. simpl in *.
    split_and!; [done| by apply Is_true_true |done].
  - intros (i & r & Hl & Hd & ->). exists (i, r). split; [done|].
    apply list_elem_of_filter. split; [by apply Is_true_true|].
    by apply elem_of_map_to_list.
Qed.

Lemma select_due_ids_NoDup (now : string) (t : table) :
  NoDup (select_due now t).*1.*1.
Proof.
  unfold select_due. rewrite <- !list_fmap_compose.
  apply NoDup_fmap_2_strong.
  - intros [i r] [j r'] Hi Hj Heq. simpl in Heq. subst j.
    apply list_elem_of_filter in Hi as [_ Hi], Hj as [_ Hj].
    apply elem_of_map_to_list in Hi, Hj. congruence.
  - apply NoDup_filter, NoDup_map_to_list.
Qed.


Lemma update_posted_lookup (i j : Z) (t : table) :
  update_posted i t !! j = if decide (i = j) then set_posted <$> t !! j else t !! j.
Proof. unfold update_posted. rewrite lookup_alter. by case_decide; subst. Qed.

Lemma set_posted_idemp (r : row) : set_posted (set_posted r) = set_posted r.
Proof. done. Qed.

Lemma update_posted_idemp (i : Z) (t : table) :
  update_posted i (update_posted i t) = update_posted i t.
Proof.
  apply map_eq. intros j. rewrite !update_posted_lookup.
  case_decide; [|done]. by destruct (t !! j).
Qed.

(** ** Running the monad *)

Lemma bind_run {A B} (m : M A) (k : A → M B) (w : world) :
  (m ≫= k) w = match m w with
               | (Ok a, w') => k a w'
               | (Raise e, w') => (Raise e, w')
               end.
Proof. done. Qed.

Lemma try_except_run {A} (body : M A) (handler : exn → M A) (w : world) :
  try_except body handler w = match body w with
                              | (Ok a, w') => (Ok a, w')
                              | (Raise e, w') => handler e w'
                              end.
Proof. done. Qed.

Create HintDb run_db.
#[local] Hint Unfold mret M_ret gets modify raise may_raise print
  path_exists save media_upload create_tweet
  get_db_connection execute_select execute_update execute_insert commit
  : run_db.

Ltac run :=
  repeat first
    [ progress rewrite ?bind_run, ?try_except_run
    | progress autounfold with run_db
    | progress simpl ].

Lemma world_eta (w : world) :
  World (tweets w) (conn w) (files w) (api_calls w) (stdout w) = w.
Proof. by destruct w. Qed.

Lemma upload_each_run (outcome : nat → result Z) (paths : list string) :
  ∀ (n : nat) (ids : list Z) (w : world),
    upload_each outcome n paths ids w =
      (Ok (ids ++ handles_obtained (files w) outcome n paths),
       World (tweets w) (conn w) (files w)
         (api_calls w ++ uploads_attempted (files w) paths)
         (stdout w ++ upload_lines (files w) outcome n paths)).
Proof.
  induction paths as [|p rest IH]; intros n ids w.
  - simpl. unfold uploads_attempted. simpl. rewrite !app_nil_r, world_eta. done.
  - cbn [upload_each handles_obtained upload_lines].
    unfold uploads_attempted. rewrite filter_cons. fold (stored (files w) p).
    run. fold (stored (files w) p).
    destruct (stored (files w) p) eqn:Hst.
    + rewrite decide_True by done. destruct (outcome n) as [media_id|e]; run;
        rewrite IH; simpl; rewrite <- ?app_assoc; done.
    + rewrite decide_False by (simpl; tauto). run.
      rewrite IH; simpl; rewrite <- ?app_assoc; done.
Qed.

Lemma upload_media_to_twitter_run (cfg : config) (outcome : nat → result Z)
    (paths : list string) (w : world) :
  upload_media_to_twitter cfg outcome paths w =
    if api_v1 cfg then
      (Ok (handles_obtained (files w) outcome 0 paths),
       World (tweets w) (conn w) (files w)
         (api_calls w ++ uploads_attempted (files w) paths)
         (stdout w ++ upload_lines (files w) outcome 0 paths))
    else (Ok [], w).
Proof.
  unfold upload_media_to_twitter. destruct (api_v1 cfg); simpl; [|done].
  case_bool_decide as Hp.
  - subst paths. simpl. unfold uploads_attempted. simpl.
    by rewrite !app_nil_r, world_eta.
  - by rewrite upload_each_run.
Qed.


Lemma upload_media_to_twitter_spec (cfg : config) (outcome : nat → result Z)
    (paths : list string) (w : world) :
  upload_media_to_twitter cfg outcome paths w =
    (Ok (media_ids_resolved cfg (files w) outcome paths),
     World (tweets w) (conn w) (files w)
       (api_calls w ++ calls_of_upload cfg (files w) paths)
       (stdout w ++ lines_of_upload cfg (files w) outcome paths)).
Proof.
  rewrite upload_media_to_twitter_run.
  unfold media_ids_resolved, calls_of_upload, lines_of_upload.
  destruct (api_v1 cfg); [done|]. by rewrite !app_nil_r, world_eta.
Qed.

Lemma upload_if_any_run (cfg : config) (outcome : nat → result Z)
    (paths : list string) (w : world) :
  upload_if_any cfg outcome paths w =
    match paths with
    | [] => (Ok None, w)
    | _ :: _ =>
        (Ok (Some (media_ids_resolved cfg (files w) outcome paths)),
         World (tweets w) (conn w) (files w)
           (api_calls w ++ calls_of_upload cfg (files w) paths)
           (stdout w ++ lines_of_upload cfg (files w) outcome paths))
    end.
Proof.
  destruct paths as [|p rest]; [done|].
  unfold upload_if_any. rewrite bind_run, upload_media_to_twitter_spec. done.
Qed.

Lemma post_tweet_run (outcome : result string) (text : string)
    (media_ids : option (list Z)) (w : world) :
  post_tweet outcome text media_ids w =
    (outcome,
     add_call (CreateTweet text (if truthy media_ids then media_ids else None)) w).
Proof.
  unfold post_tweet. destruct (truthy media_ids), outcome; done.
Qed.

Lemma for_each_ok {A} (xs : list A) (body : A → M unit) :
  (∀ x w, (body x w).1 = Ok tt) → ∀ w, (for_each xs body w).1 = Ok tt.
Proof.
  intros Hbody. induction xs as [|x xs IH]; intros w; [done|].
  simpl. rewrite bind_run. specialize (Hbody x w).
  destruct (body x w) as [[[]|e] w']; simpl in *; [apply IH | done].
Qed.

Lemma process_tweet_ok (cfg : config) (e : tick_env) tw (w : world) :
  (process_tweet cfg e tw w).1 = Ok tt.
Proof.
  destruct tw as [[i c] p]. unfold process_tweet.
  destruct (client cfg); [|done].
  rewrite try_except_run.
  match goal with |- context [match ?b with _ => _ end] => destruct b as [[[]|ex] w'] end; done.
Qed.

Ltac process_cases cfg e i c p w :=
  unfold process_tweet;
  destruct (client cfg) eqn:?;
  [ rewrite try_except_run;
    destruct (String.length c <=? 280)%nat eqn:?;
    [ rewrite bind_run, upload_if_any_run;
      destruct (default [] p) eqn:?;
      rewrite bind_run, post_tweet_run;
      destruct (tweet_outcome e i) eqn:?;
      destruct (update_fault e i) eqn:?;
      destruct (commit_fault e i) eqn:?
    | destruct (update_fault e i) eqn:?;
      destruct (commit_fault e i) eqn:? ]
  | ]; run.

Lemma process_tweet_tables (cfg : config) (e : tick_env) i c p (w : world) :
  let w' := (process_tweet cfg e (i, c, p) w).2 in
  files w' = files w
  ∧ (conn w' = conn w ∨ conn w' = update_posted i (conn w))
  ∧ (tweets w' = tweets w ∨ tweets w' = conn w').
Proof.
  process_cases cfg e i c p w; auto.
Qed.

Lemma truthy_not_empty (media_ids : option (list Z)) :
  (if truthy media_ids then media_ids else None) ≠ Some [].
Proof. by destruct media_ids as [[|]|]. Qed.

(** The calls one row adds: media uploads, then at most one [create_tweet]
    with the content of the row. *)
Lemma process_tweet_calls (cfg : config) (e : tick_env) i c p (w : world) :
  ∃ calls, api_calls (process_tweet cfg e (i, c, p) w).2 = api_calls w ++ calls
    ∧ Forall well_formed_call calls
    ∧ Forall (λ call, ∀ text ids, call = CreateTweet text ids → text = c) calls.
Proof.
  assert (∀ fs paths, Forall well_formed_call (calls_of_upload cfg fs paths)
    ∧ Forall (λ call, ∀ text ids, call = CreateTweet text ids → text = c)
        (calls_of_upload cfg fs paths)) as Hup.
  { intros fs paths. unfold calls_of_upload, uploads_attempted.
    destruct (api_v1 cfg); [|by split].
    split; apply Forall_fmap, Forall_true; done. }
  process_cases cfg e i c p w;
    try (exists []; by rewrite app_nil_r);
    rewrite <- ?app_assoc;
    eexists; (split; [reflexivity|]);
    repeat match goal with H : (_ <=? _)%nat = true |- _ => apply Nat.leb_le in H end.
  all: try (split; [ rewrite ?Forall_app; repeat split; try apply Hup;
              apply Forall_singleton; split;
                [done | first [exact (truthy_not_empty (Some _)) | done]]
            | rewrite ?Forall_app; repeat split; try apply Hup;
              apply Forall_singleton; congruence ]).
Qed.


(** ** One row among the others *)

Lemma process_tweet_other (cfg : config) (e : tick_env) i c p j x (w : world) :
  i ≠ j → row_is j x w → row_is j x (process_tweet cfg e (i, c, p) w).2.
Proof.
  intros Hij [Ht Hc].
  destruct (process_tweet_tables cfg e i c p w) as (_ & Hconn & Htw).
  unfold row_is.
  assert (conn (process_tweet cfg e (i, c, p) w).2 !! j = x) as Hc'.
  { destruct Hconn as [-> | ->]; [done|].
    rewrite update_posted_lookup. by rewrite decide_False. }
  split; [|done]. destruct Htw as [-> | ->]; done.
Qed.

Lemma process_tweet_marks (cfg : config) (e : tick_env) i c p (w : world) :
  client cfg = true →
  update_fault e i = None → commit_fault e i = None →
  (280 < String.length c)%nat ∨ (∃ id, tweet_outcome e i = Ok id) →
  conn (process_tweet cfg e (i, c, p) w).2 = update_posted i (conn w)
  ∧ tweets (process_tweet cfg e (i, c, p) w).2 = update_posted i (conn w).
Proof.
  intros Hcl Hu Hc Hcase.
  process_cases cfg e i c p w; try done; try congruence.
  all: destruct Hcase as [Hlen | [id Hid]]; try congruence.
  all: try (apply Nat.leb_le in Heqb0; lia).
Qed.

Lemma process_tweet_publish_fails (cfg : config) (e : tick_env) i c p ex
    (w : world) :
  (String.length c ≤ 280)%nat → tweet_outcome e i = Raise ex →
  tweets (process_tweet cfg e (i, c, p) w).2 = tweets w
  ∧ conn (process_tweet cfg e (i, c, p) w).2 = conn w.
Proof.
  intros Hlen Hraise.
  process_cases cfg e i c p w; try done; try congruence.
  all: apply Nat.leb_gt in Heqb0; lia.
Qed.

Lemma for_each_cons_run {A} (x : A) (xs : list A) (body : A → M unit)
    (w : world) :
  (body x w).1 = Ok tt →
  for_each (x :: xs) body w = for_each xs body (body x w).2.
Proof.
  intros Hok. simpl. rewrite bind_run.
  destruct (body x w) as [[[]|ex] w']; simpl in *; [done | congruence].
Qed.

Lemma for_each_process_cons (cfg : config) (e : tick_env) tw l (w : world) :
  for_each (tw :: l) (process_tweet cfg e) w =
  for_each l (process_tweet cfg e) (process_tweet cfg e tw w).2.
Proof. apply for_each_cons_run, process_tweet_ok. Qed.

Lemma for_each_process_app (cfg : config) (e : tick_env) l1 l2 (w : world) :
  for_each (l1 ++ l2) (process_tweet cfg e) w =
  for_each l2 (process_tweet cfg e) (for_each l1 (process_tweet cfg e) w).2.
Proof.
  revert w. induction l1 as [|tw l1 IH]; intros w; [done|].
  rewrite <- app_comm_cons, !for_each_process_cons. apply IH.
Qed.

Lemma for_each_process_ok (cfg : config) (e : tick_env) l (w : world) :
  (for_each l (process_tweet cfg e) w).1 = Ok tt.
Proof. apply for_each_ok. intros. apply process_tweet_ok. Qed.

Lemma for_each_other (cfg : config) (e : tick_env) l j x (w : world) :
  j ∉ l.*1.*1 → row_is j x w →
  row_is j x (for_each l (process_tweet cfg e) w).2.
Proof.
  revert w. induction l as [|[[i c] p] l IH]; intros w Hj Hrow; [done|].
  rewrite for_each_process_cons. simpl in Hj.
  apply not_elem_of_cons in Hj as [Hne Hj].
  apply IH; [done|]. by apply process_tweet_other.
Qed.

Lemma for_each_files (cfg : config) (e : tick_env) l (w : world) :
  files (for_each l (process_tweet cfg e) w).2 = files w.
Proof.
  revert w. induction l as [|[[i c] p] l IH]; intros w; [done|].
  rewrite for_each_process_cons, IH.
  by destruct (process_tweet_tables cfg e i c p w) as (-> & _).
Qed.

Lemma for_each_calls (cfg : config) (e : tick_env) l (w : world) :
  ∃ calls,
    api_calls (for_each l (process_tweet cfg e) w).2 = api_calls w ++ calls
    ∧ Forall well_formed_call calls.
Proof.
  revert w. induction l as [|[[i c] p] l IH]; intros w.
  - exists []. by rewrite app_nil_r.
  - rewrite for_each_process_cons.
    destruct (process_tweet_calls cfg e i c p w) as (c1 & H1 & Hw1 & _).
    destruct (IH (process_tweet cfg e (i, c, p) w).2) as (c2 & H2 & Hw2).
    exists (c1 ++ c2). rewrite H2, H1, app_assoc. split; [done|].
    by apply Forall_app.
Qed.


(** ** One iteration *)

Lemma tick_run (cfg : config) (e : tick_env) (w : world) :
  tick cfg e w =
    match connect_fault e with
    | Some ex => (Ok tt, add_line (ErrorInSchedulerThread ex) w)
    | None =>
        let w0 := set_conn (tweets w) w in
        match select_fault e with
        | Some ex => (Ok tt, add_line (ErrorInSchedulerThread ex) w0)
        | None =>
            let w1 := (for_each (select_due (now e) (tweets w))
                         (process_tweet cfg e) w0).2 in
            match close_fault e with
            | Some ex => (Ok tt, add_line (ErrorInSchedulerThread ex) w1)
            | None => (Ok tt, w1)
            end
        end
    end.
Proof.
  unfold tick. rewrite try_except_run, bind_run.
  unfold get_db_connection. rewrite bind_run.
  destruct (connect_fault e) as [ex|]; [done|]. run.
  destruct (select_fault e) as [ex|]; [done|]. run.
  pose proof (for_each_process_ok cfg e (select_due (now e) (tweets w))
                (set_conn (tweets w) w)) as Hok.
  destruct (for_each _ _ _) as [[[]|ex] w1]; simpl in *; [|congruence].
  destruct (close_fault e); done.
Qed.

Lemma tick_ok (cfg : config) (e : tick_env) (w : world) :
  (tick cfg e w).1 = Ok tt.
Proof.
  rewrite tick_run.
  destruct (connect_fault e), (select_fault e), (close_fault e); done.
Qed.

(** The row of a due post: the rows handled before it and after it leave it
    alone, so its fate is decided by its own [process_tweet], and the calls
    made for it stay in the record. *)
Lemma tick_row (cfg : config) (e : tick_env) (w : world) i r :
  connect_fault e = None → select_fault e = None →
  tweets w !! i = Some r → is_due (now e) r = true →
  ∃ w1, row_is i (Some r) w1 ∧ files w1 = files w ∧
    (∀ x, row_is i x (process_tweet cfg e (i, content r, image_paths r) w1).2 →
          tweets (tick cfg e w).2 !! i = x) ∧
    (∀ call,
       call ∈ api_calls (process_tweet cfg e (i, content r, image_paths r) w1).2 →
       call ∈ api_calls (tick cfg e w).2).
Proof.
  intros Hc Hs Hi Hdue. rewrite tick_run, Hc, Hs. cbv zeta.
  assert ((i, content r, image_paths r) ∈ select_due (now e) (tweets w)) as Hin.
  { apply elem_of_select_due. by exists i, r. }
  pose proof (select_due_ids_NoDup (now e) (tweets w)) as Hnd.
  apply list_elem_of_split in Hin as (l1 & l2 & Hl). rewrite Hl in Hnd |- *.
  rewrite !fmap_app, !fmap_cons in Hnd. simpl in Hnd.
  apply NoDup_app in Hnd as (_ & Hl1 & Hnd).
  apply NoDup_cons in Hnd as [Hl2 _].
  assert (i ∉ l1.*1.*1) as Hl1'.
  { intros Hin. apply (Hl1 _ Hin). by left. }
  set (w0 := set_conn (tweets w) w).
  exists (for_each l1 (process_tweet cfg e) w0).2.
  rewrite for_each_process_app, for_each_process_cons.
  set (w2 := (process_tweet cfg e (i, content r, image_paths r)
               (for_each l1 (process_tweet cfg e) w0).2).2).
  split_and!.
  - apply for_each_other; [done|]. by split.
  - by rewrite for_each_files.
  - intros x Hx.
    eapply for_each_other in Hx; [|exact Hl2].
    destruct Hx as [Hx _]. destruct (close_fault e); exact Hx.
  - intros call Hcall.
    destruct (for_each_calls cfg e l2 w2) as (calls & Hcalls & _).
    assert (call ∈ api_calls (for_each l2 (process_tweet cfg e) w2).2).
    { rewrite Hcalls. apply elem_of_app. by left. }
    by destruct (close_fault e).
Qed.

(** A row that is not due is not touched. *)
Lemma tick_not_due (cfg : config) (e : tick_env) (w : world) i x :
  tweets w !! i = x → (∀ r, x = Some r → is_due (now e) r = false) →
  tweets (tick cfg e w).2 !! i = x.
Proof.
  intros Hi Hnot. rewrite tick_run.
  destruct (connect_fault e); [done|]. cbv zeta.
  destruct (select_fault e); [done|].
  assert (row_is i x (for_each (select_due (now e) (tweets w))
            (process_tweet cfg e) (set_conn (tweets w) w)).2) as [Hx _].
  { apply for_each_other; [|by split].
    intros Hin. apply list_elem_of_fmap in Hin as ([j c] & -> & Hin).
    apply list_elem_of_fmap in Hin as ([[j' c'] p] & [= <- <-] & Hin).
    apply elem_of_select_due in Hin as (k & r & Hk & Hd & [= -> _ _]).
    simpl in *. rewrite Hk in Hi. specialize (Hnot r (eq_sym Hi)). congruence. }
  destruct (close_fault e); exact Hx.
Qed.

Lemma tick_calls (cfg : config) (e : tick_env) (w : world) :
  ∃ calls, api_calls (tick cfg e w).2 = api_calls w ++ calls
           ∧ Forall well_formed_call calls.
Proof.
  rewrite tick_run.
  destruct (connect_fault e); [exists []; by rewrite app_nil_r|]. cbv zeta.
  destruct (select_fault e); [exists []; by rewrite app_nil_r|].
  destruct (for_each_calls cfg e (select_due (now e) (tweets w))
              (set_conn (tweets w) w)) as (calls & Hc & Hw).
  exists calls. destruct (close_fault e); done.
Qed.

(** ** The loop *)

Lemma loop_step (cfg : config) (env : nat → tick_env) (k n : nat) (w : world) :
  check_and_post_tweets cfg env k (S n) w =
  check_and_post_tweets cfg env (S k) n (tick cfg (env k) w).2.
Proof.
  simpl. rewrite bind_run. pose proof (tick_ok cfg (env k) w) as Hok.
  destruct (tick cfg (env k) w) as [[[]|ex] w']; simpl in *; [done|congruence].
Qed.


Lemma loop_calls (cfg : config) (env : nat → tick_env) (n k : nat) (w : world) :
  ∃ calls, api_calls (check_and_post_tweets cfg env k n w).2 = api_calls w ++ calls
           ∧ Forall well_formed_call calls.
Proof.
  revert k w. induction n as [|n IH]; intros k w.
  - exists []. simpl. by rewrite app_nil_r.
  - rewrite loop_step.
    destruct (tick_calls cfg (env k) w) as (c1 & H1 & Hw1).
    destruct (IH (S k) (tick cfg (env k) w).2) as (c2 & H2 & Hw2).
    exists (c1 ++ c2). rewrite H2, H1, app_assoc. split; [done|].
    by apply Forall_app.
Qed.

Lemma is_due_not_pending (now : string) (r : row) :
  posted r ≠ 0 → is_due now r = false.
Proof. intros Hp. unfold is_due. by apply Z.eqb_neq in Hp as ->. Qed.

Lemma loop_keeps_posted (cfg : config) (env : nat → tick_env) (n k : nat)
    (w : world) i r :
  tweets w !! i = Some r → posted r ≠ 0 →
  tweets (check_and_post_tweets cfg env k n w).2 !! i = Some r.
Proof.
  revert k w. induction n as [|n IH]; intros k w Hi Hp; [done|].
  rewrite loop_step. apply IH; [|done].
  apply tick_not_due; [done|]. intros r' [= <-]. by apply is_due_not_pending.
Qed.

(** ** The listing *)

Lemma elem_of_get_tweets (t : table) (j : tweet_json) :
  j ∈ get_tweets t → ∃ i r, t !! i = Some r ∧ j = to_json (i, r).
Proof.
  unfold get_tweets. intros Hj.
  apply list_elem_of_fmap in Hj as ([i r] & -> & Hin).
  apply subseteq_take in Hin.
  rewrite merge_sort_Permutation in Hin.
  apply elem_of_map_to_list in Hin. by exists i, r.
Qed.

Lemma get_tweets_small (t : table) i r :
  (size t ≤ 50)%nat → t !! i = Some r → to_json (i, r) ∈ get_tweets t.
Proof.
  intros Hsize Hi. unfold get_tweets. apply list_elem_of_fmap.
  exists (i, r). split; [done|].
  rewrite take_ge.
  - rewrite merge_sort_Permutation. by apply elem_of_map_to_list.
  - rewrite merge_sort_Permutation, length_map_to_list. lia.
Qed.

(** ** The handles the upload gives back *)

Lemma elem_of_handles_obtained (fs : gmap string string)
    (outcome : nat → result Z) (paths : list string) :
  ∀ (n0 : nat) (media_id : Z),
    media_id ∈ handles_obtained fs outcome n0 paths ↔
    ∃ (k : nat) (p : string),
      paths !! k = Some p ∧ stored fs p = true
      ∧ outcome (n0 + k)%nat = Ok media_id.
Proof.
  induction paths as [|p rest IH]; intros n0 media_id; simpl.
  - split; [by intros ?%elem_of_nil | by intros (k & q & ? & _)].
  - assert ((∃ k q, (p :: rest) !! k = Some q ∧ stored fs q = true
                    ∧ outcome (n0 + k)%nat = Ok media_id)
            ↔ (stored fs p = true ∧ outcome n0 = Ok media_id)
              ∨ media_id ∈ handles_obtained fs outcome (S n0) rest) as ->.
    { rewrite IH. split.
      - intros ([|k] & q & Hq & Hst & Ho); simpl in Hq.
        + injection Hq as <-. left. by rewrite Nat.add_0_r in Ho.
        + right. exists k, q. by rewrite Nat.add_succ_r in Ho.
      - intros [[Hst Ho] | (k & q & Hq & Hst & Ho)].
        + exists 0%nat, p. by rewrite Nat.add_0_r.
        + exists (S k), q. by rewrite Nat.add_succ_r. }
    destruct (stored fs p), (outcome n0) as [m|ex];
      rewrite ?elem_of_cons; intuition congruence.
Qed.

Lemma process_tweet_text_only (cfg : config) (e : tick_env) i c p (w : world) :
  client cfg = true → (String.length c ≤ 280)%nat →
  media_ids_resolved cfg (files w) (upload_outcome e i) (default [] p) = [] →
  CreateTweet c None ∈ api_calls (process_tweet cfg e (i, c, p) w).2.
Proof.
  intros Hcl Hlen Hnone.
  process_cases cfg e i c p w; try congruence;
    try (apply Nat.leb_gt in Heqb0; lia);
    rewrite ?Hnone; simpl;
    rewrite ?elem_of_app, ?elem_of_cons; auto.
Qed.

(** ** Request handlers *)

Lemma save_uploads_run (e : request_env) (fs : list file_storage) :
  ∀ (n : nat) (paths : list string) (w : world),
    save_uploads e n fs paths w =
      (match uploads_raise e n fs with
       | Some ex => Raise ex
       | None => Ok (paths ++ stored_names e n fs)
       end,
       set_files (files_left e n fs (files w)) w).
Proof.
  induction fs as [|file rest IH]; intros n paths w; simpl.
  - rewrite app_nil_r. unfold set_files. by rewrite world_eta.
  - case_bool_decide.
    + apply IH.
    + fold (stored_name e n file).
      destruct (save_outcome e n) as [|ex [partial|]]; run.
      * rewrite IH. simpl. by rewrite <- app_assoc.
      * done.
      * unfold set_files. by rewrite world_eta.
Qed.

Lemma request_image_paths_run (e : request_env) (rq : request) (w : world) :
  request_image_paths e rq w =
    (match request_raises e rq with
     | Some ex => Raise ex
     | None => Ok (image_paths_of e rq)
     end,
     set_files (files_left_by_request e rq (files w)) w).
Proof.
  destruct rq as [c st paths | c st images]; simpl.
  - unfold set_files. by rewrite world_eta.
  - by rewrite save_uploads_run.
Qed.

Lemma files_left_all_saved (e : request_env) (fs : list file_storage) :
  ∀ (n : nat) (store : gmap string string),
    uploads_raise e n fs = None →
    files_left e n fs store = files_after_saving e n fs store.
Proof.
  induction fs as [|file rest IH]; intros n store Hnone; simpl in *; [done|].
  case_bool_decide; [by apply IH|].
  destruct (save_outcome e n) as [|ex left]; [by apply IH | done].
Qed.

Lemma files_left_by_request_all_saved (e : request_env) (rq : request)
    (store : gmap string string) :
  request_raises e rq = None →
  files_left_by_request e rq store = files_after_request e rq store.
Proof.
  destruct rq as [c st paths | c st images]; simpl; [done|].
  apply files_left_all_saved.
Qed.

Lemma files_after_saving_keeps (e : request_env) (fs : list file_storage) :
  ∀ (n : nat) (store : gmap string string) (path : string),
    is_Some (store !! path) →
    is_Some (files_after_saving e n fs store !! path).
Proof.
  induction fs as [|file rest IH]; intros n store path Hp; simpl; [done|].
  case_bool_decide; apply IH; [done|].
  rewrite lookup_insert. case_decide; [by eexists | done].
Qed.

Lemma files_after_saving_has (e : request_env) (fs : list file_storage) :
  ∀ (n k : nat) (store : gmap string string) (file : file_storage),
    fs !! k = Some file → filename file ≠ "" →
    is_Some (files_after_saving e n fs store
               !! path_join UPLOAD_FOLDER (stored_name e (n + k) file)).
Proof.
  induction fs as [|f rest IH]; intros n k store file Hk Hname; [done|].
  destruct k as [|k]; simpl in *.
  - injection Hk as ->. rewrite bool_decide_false by done.
    apply files_after_saving_keeps. rewrite Nat.add_0_r, lookup_insert_eq.
    by eexists.
  - rewrite Nat.add_succ_r.
    case_bool_decide; by apply (IH (S n) k).
Qed.

Lemma max_id_upper (t : table) (i : Z) : is_Some (t !! i) → i ≤ max_id t.
Proof.
  intros [r Hr]. unfold max_id.
  assert (i ∈ (map_to_list t).*1) as Hin.
  { apply list_elem_of_fmap. exists (i, r). split; [done|].
    by apply elem_of_map_to_list. }
  revert Hin. generalize ((map_to_list t).*1). intros l.
  induction l as [|x l IH]; intros Hin; [by apply elem_of_nil in Hin|].
  apply elem_of_cons in Hin as [-> | Hin]; simpl; [lia|].
  specialize (IH Hin). lia.
Qed.

Lemma lastrowid_fresh (t : table) : t !! lastrowid t = None.
Proof.
  destruct (t !! lastrowid t) eqn:Hl; [|done].
  assert (lastrowid t ≤ max_id t) by (apply max_id_upper; by eexists).
  unfold lastrowid in *. lia.
Qed.

(** [schedule_tweet], step by step. *)
Lemma schedule_tweet_run (e : request_env) (rq : request) (w : world) :
  schedule_tweet e rq w =
    let w0 := set_files (files_left_by_request e rq (files w)) w in
    match request_raises e rq with
    | Some ex => (Ok (BadRequestExn ex), w0)
    | None =>
    if bool_decide (content_of rq = "") then
      (Ok (BadRequest "Tweet content is required"), w0)
    else if bool_decide (scheduled_time_of rq = "") then
      (Ok (BadRequest "Scheduled time is required"), w0)
    else if (4 <? length (image_paths_of e rq))%nat then
      (Ok (BadRequest "Maximum 4 images allowed"), w0)
    else
      match fromisoformat e (replace_Z (scheduled_time_of rq)) with
      | None => (Ok (BadRequestExn ValueError), w0)
      | Some d =>
          if datetime_lt d (datetime_now e (utcoffset d)) then
            (Ok (BadRequest "Scheduled time must be in the future"), w0)
          else
            match rq_connect_fault e with
            | Some ex => (Ok (BadRequestExn ex), w0)
            | None =>
                let w1 := set_conn (tweets w) w0 in
                match rq_insert_fault e with
                | Some ex => (Ok (BadRequestExn ex), w1)
                | None =>
                    let ins :=
                      insert_tweet (content_of rq) (scheduled_time_of rq)
                        (image_paths_json_of (image_paths_of e rq))
                        (current_timestamp e) (tweets w) in
                    let w2 := set_conn ins.2 w1 in
                    match rq_commit_fault e with
                    | Some ex => (Ok (BadRequestExn ex), w2)
                    | None => (Ok (Scheduled ins.1), set_tweets ins.2 w2)
                    end
                end
            end
      end
    end.
Proof.
  unfold schedule_tweet.
  rewrite try_except_run, bind_run, request_image_paths_run.
  fold (content_of rq) (scheduled_time_of rq). cbv zeta.
  destruct (request_raises e rq) as [ex|]; [done|].
  case_bool_decide; [done|]. case_bool_decide; [done|].
  destruct (4 <? length (image_paths_of e rq))%nat; [done|].
  destruct (fromisoformat e _) as [d|]; [|done]. run.
  destruct (datetime_lt _ _); [done|].
  destruct (rq_connect_fault e); [done|]. run.
  destruct (rq_insert_fault e); [done|]. run.
  fold (image_paths_json_of (image_paths_of e rq)).
  destruct (rq_commit_fault e); done.
Qed.

(** [post_now], step by step. *)
Lemma post_now_run (cfg : config) (e : request_env) (rq : request) (w : world) :
  post_now cfg e rq w =
    if negb (client cfg) then
      (Ok (ServerError "Twitter API credentials not configured"), w)
    else
      let w0 := set_files (files_left_by_request e rq (files w)) w in
      match request_raises e rq with
      | Some ex => (Ok (BadRequestExn ex), w0)
      | None =>
      if bool_decide (content_of rq = "") then
        (Ok (BadRequest "Tweet content is required"), w0)
      else if (280 <? String.length (content_of rq))%nat then
        (Ok (BadRequest "Tweet content exceeds 280 characters"), w0)
      else if (4 <? length (image_paths_of e rq))%nat then
        (Ok (BadRequest "Maximum 4 images allowed"), w0)
      else
        let names := file_name_of <$> image_paths_of e rq in
        let ids := media_ids_resolved cfg (files w0) (rq_upload_outcome e) names in
        let media_ids := match names with [] => None | _ :: _ => Some ids end in
        let w1 :=
          match names with
          | [] => w0
          | _ :: _ =>
              World (tweets w0) (conn w0) (files w0)
                (api_calls w0 ++ calls_of_upload cfg (files w0) names)
                (stdout w0
                   ++ lines_of_upload cfg (files w0) (rq_upload_outcome e) names)
          end in
        let w2 :=
          add_call
            (CreateTweet (content_of rq)
               (if truthy media_ids then media_ids else None)) w1 in
        match rq_tweet_outcome e with
        | Ok tweet_id => (Ok (PostedNow tweet_id), w2)
        | Raise ex => (Ok (BadRequestExn ex), w2)
        end
      end.
Proof.
  unfold post_now. destruct (client cfg); [|done]. unfold negb. cbv iota.
  rewrite try_except_run, bind_run, request_image_paths_run.
  fold (content_of rq). cbv zeta.
  destruct (request_raises e rq) as [ex|]; [done|].
  case_bool_decide; [done|].
  destruct (280 <? String.length (content_of rq))%nat; [done|].
  destruct (4 <? length (image_paths_of e rq))%nat; [done|].
  rewrite bind_run, upload_if_any_run.
  destruct (file_name_of <$> image_paths_of e rq) as [|name names];
    rewrite bind_run, post_tweet_run;
    destruct (rq_tweet_outcome e); done.
Qed.

Lemma post_now_calls (cfg : config) (e : request_env) (rq : request)
    (w : world) :
  ∃ calls, api_calls (post_now cfg e rq w).2 = api_calls w ++ calls
           ∧ Forall well_formed_call calls.
Proof.
  rewrite post_now_run.
  destruct (client cfg); unfold negb; cbv iota zeta;
    [|exists []; by rewrite app_nil_r].
  destruct (request_raises e rq); [exists []; by rewrite app_nil_r|].
  case_bool_decide; [exists []; by rewrite app_nil_r|].
  destruct (280 <? String.length (content_of rq))%nat eqn:Hlen;
    [exists []; by rewrite app_nil_r|].
  apply Nat.ltb_ge in Hlen.
  destruct (4 <? length (image_paths_of e rq))%nat;
    [exists []; by rewrite app_nil_r|].
  destruct (file_name_of <$> image_paths_of e rq) as [|name names];
    destruct (rq_tweet_outcome e); simpl;
    rewrite <- ?app_assoc; eexists; (split; [reflexivity|]);
    rewrite ?Forall_app; repeat split;
    try (apply Forall_singleton; split;
           [done | first [exact (truthy_not_empty (Some _)) | done]]).
  all: unfold calls_of_upload, uploads_attempted;
    destruct (api_v1 cfg); [apply Forall_fmap, Forall_true|]; done.
Qed.

Lemma post_now_oversized (cfg : config) (e : request_env) (rq : request)
    (w : world) :
  (280 < String.length (content_of rq))%nat →
  api_calls (post_now cfg e rq w).2 = api_calls w.
Proof.
  intros Hlen. rewrite post_now_run.
  destruct (client cfg); unfold negb; cbv iota zeta; [|done].
  destruct (request_raises e rq); [done|].
  case_bool_decide; [done|].
  apply Nat.ltb_lt in Hlen. by rewrite Hlen.
Qed.

Lemma process_tweet_oversized (cfg : config) (e : tick_env) i c p (w : world) :
  (280 < String.length c)%nat →
  api_calls (process_tweet cfg e (i, c, p) w).2 = api_calls w.
Proof.
  intros Hlen.
  process_cases cfg e i c p w; try done.
  all: apply Nat.leb_le in Heqb0; lia.
Qed.

(** The case analysis of [schedule_tweet_run], with the tests turned into
    facts. *)
Ltac schedule_cases e rq w :=
  rewrite (schedule_tweet_run e rq w); cbv zeta;
  unfold datetime_lt, insert_tweet;
  destruct (request_raises e rq) as [save_ex|] eqn:Hsave;
  [ |
  destruct (bool_decide (content_of rq = "")) eqn:Hcontent;
  [ apply bool_decide_eq_true in Hcontent
  | apply bool_decide_eq_false in Hcontent;
    destruct (bool_decide (scheduled_time_of rq = "")) eqn:Htime;
    [ apply bool_decide_eq_true in Htime
    | apply bool_decide_eq_false in Htime;
      destruct (4 <? length (image_paths_of e rq))%nat eqn:Himages;
      [ apply Nat.ltb_lt in Himages
      | apply Nat.ltb_ge in Himages;
        destruct (fromisoformat e (replace_Z (scheduled_time_of rq)))
          as [d|] eqn:Hparse;
        [ destruct (wall d <? wall (datetime_now e (utcoffset d))) eqn:Hpast;
          [ apply Z.ltb_lt in Hpast
          | apply Z.ltb_ge in Hpast;
            destruct (rq_connect_fault e) eqn:Hconnect;
            [ | destruct (rq_insert_fault e) eqn:Hinsert;
                [ | destruct (rq_commit_fault e) eqn:Hcommit ] ] ]
        | ] ] ] ] ];
  simpl.

Lemma schedule_tweet_rejects (e : request_env) (rq : request) (w : world) :
  content_of rq = "" ∨ scheduled_time_of rq = ""
  ∨ (4 < length (image_paths_of e rq))%nat
  ∨ fromisoformat e (replace_Z (scheduled_time_of rq)) = None
  ∨ (∃ d, fromisoformat e (replace_Z (scheduled_time_of rq)) = Some d
          ∧ wall d < wall (datetime_now e (utcoffset d))) →
  rejected (schedule_tweet e rq w).1.
Proof.
  intros Hrej. schedule_cases e rq w; try done.
  all: destruct Hrej as [?|[?|[?|[?|(d' & Hd' & ?)]]]];
    try done; try lia; try congruence.
  all: simplify_eq; lia.
Qed.

Lemma schedule_tweet_keeps_table (e : request_env) (rq : request) (w : world) :
  (∀ i, (schedule_tweet e rq w).1 ≠ Ok (Scheduled i)) →
  tweets (schedule_tweet e rq w).2 = tweets w.
Proof.
  schedule_cases e rq w; try done.
  intros Hno. by destruct (Hno (lastrowid (tweets w))).
Qed.

Lemma schedule_tweet_success (e : request_env) (rq : request) (w : world) i :
  (schedule_tweet e rq w).1 = Ok (Scheduled i) →
  i = lastrowid (tweets w)
  ∧ tweets (schedule_tweet e rq w).2 =
      <[lastrowid (tweets w) :=
          Row (content_of rq) (scheduled_time_of rq) 0
            (image_paths_json_of (image_paths_of e rq))
            (current_timestamp e)]> (tweets w).
Proof.
  schedule_cases e rq w; try done. by intros [= <-].
Qed.

Lemma schedule_tweet_accepts (e : request_env) (rq : request) (w : world) :
  content_of rq ≠ "" → scheduled_time_of rq ≠ "" →
  (length (image_paths_of e rq) ≤ 4)%nat →
  (∃ d, fromisoformat e (replace_Z (scheduled_time_of rq)) = Some d
        ∧ wall (datetime_now e (utcoffset d)) ≤ wall d) →
  request_raises e rq = None →
  rq_connect_fault e = None → rq_insert_fault e = None →
  rq_commit_fault e = None →
  (schedule_tweet e rq w).1 = Ok (Scheduled (lastrowid (tweets w))).
Proof.
  intros Hc Ht Hi (d' & Hd' & Hfuture) Hsv Hcf Hif Hcof.
  schedule_cases e rq w; try done; try lia; try congruence.
  simplify_eq. lia.
Qed.

Lemma schedule_tweet_files (e : request_env) (rq : request) (w : world) :
  files (schedule_tweet e rq w).2 = files_left_by_request e rq (files w).
Proof. schedule_cases e rq w; done. Qed.

(** Every outcome of the handler is the success or a 400. *)
Lemma schedule_tweet_answers (e : request_env) (rq : request) (w : world) :
  (schedule_tweet e rq w).1 = Ok (Scheduled (lastrowid (tweets w)))
  ∨ rejected (schedule_tweet e rq w).1.
Proof. schedule_cases e rq w; auto. Qed.

(** An exception of [file.save] or of the database driver gives a 400 with
    its text. *)
Lemma schedule_tweet_reports (e : request_env) (rq : request) (w : world)
    (ex : exn) :
  request_raises e rq = Some ex
  ∨ (request_raises e rq = None ∧ content_of rq ≠ ""
     ∧ scheduled_time_of rq ≠ "" ∧ (length (image_paths_of e rq) ≤ 4)%nat
     ∧ (∃ d, fromisoformat e (replace_Z (scheduled_time_of rq)) = Some d
             ∧ wall (datetime_now e (utcoffset d)) ≤ wall d)
     ∧ (rq_connect_fault e = Some ex
        ∨ (rq_connect_fault e = None ∧ rq_insert_fault e = Some ex)
        ∨ (rq_connect_fault e = None ∧ rq_insert_fault e = None
           ∧ rq_commit_fault e = Some ex))) →
  (schedule_tweet e rq w).1 = Ok (BadRequestExn ex).
Proof.
  intros Hex. schedule_cases e rq w.
  all: destruct Hex as [Hex | (Hsv & Hc & Ht & Hi & (d' & Hd' & Hf) & Hdb)];
    simplify_eq; try done; try lia.
  all: destruct Hdb as [? | [[? ?] | (? & ? & ?)]]; by simplify_eq.
Qed.

(** A response with a message of the handler's own tests comes after every
    file was saved. *)
Lemma schedule_tweet_validation (e : request_env) (rq : request) (w : world) :
  validation_error (schedule_tweet e rq w).1 → request_raises e rq = None.
Proof. schedule_cases e rq w; done. Qed.

Lemma schedule_tweet_validates (e : request_env) (rq : request) (w : world) :
  request_raises e rq = None →
  content_of rq = "" ∨ (4 < length (image_paths_of e rq))%nat
  ∨ (∃ d, fromisoformat e (replace_Z (scheduled_time_of rq)) = Some d
          ∧ wall d < wall (datetime_now e (utcoffset d))) →
  validation_error (schedule_tweet e rq w).1.
Proof.
  intros Hsv Hrej. schedule_cases e rq w; try done.
  all: destruct Hrej as [?|[?|(d' & Hd' & ?)]]; simplify_eq; try done; lia.
Qed.

(** ** More on one iteration *)

Lemma texts_posted_app (l1 l2 : list api_call) :
  texts_posted (l1 ++ l2) = texts_posted l1 ++ texts_posted l2.
Proof.
  induction l1 as [|[path|text ids] l1 IH]; simpl; [done|done|by rewrite IH].
Qed.

Lemma texts_posted_uploads (cfg : config) (fs : gmap string string)
    (paths : list string) :
  texts_posted (calls_of_upload cfg fs paths) = [].
Proof.
  unfold calls_of_upload, uploads_attempted. destruct (api_v1 cfg); [|done].
  induction (filter _ paths) as [|p l IH]; done.
Qed.

Lemma elem_of_texts_posted (calls : list api_call) (text : string) :
  text ∈ texts_posted calls ↔ ∃ ids, CreateTweet text ids ∈ calls.
Proof.
  induction calls as [|[path|text' ids'] calls IH]; simpl.
  - split; [by intros ?%elem_of_nil | by intros [? ?%elem_of_nil]].
  - rewrite IH. split; intros [ids Hin]; exists ids.
    + by right.
    + by apply elem_of_cons in Hin as [?|?].
  - rewrite elem_of_cons, IH. split.
    + intros [-> | [ids Hin]]; [exists ids'; by left | exists ids; by right].
    + intros [ids Hin]. apply elem_of_cons in Hin as [[= -> _] | Hin];
        [by left | right; by exists ids].
Qed.

Lemma process_tweet_no_client (cfg : config) (e : tick_env) tw (w : world) :
  client cfg = false →
  process_tweet cfg e tw w = (Ok tt, add_line ClientNotInitialized w).
Proof. intros Hcl. destruct tw as [[i c] p]. unfold process_tweet. by rewrite Hcl. Qed.

Lemma for_each_no_client (cfg : config) (e : tick_env) l (w : world) :
  client cfg = false →
  let w' := (for_each l (process_tweet cfg e) w).2 in
  tweets w' = tweets w ∧ conn w' = conn w ∧ files w' = files w
  ∧ api_calls w' = api_calls w.
Proof.
  intros Hcl. revert w. induction l as [|tw l IH]; intros w; [done|].
  cbv zeta. rewrite for_each_process_cons, process_tweet_no_client by done.
  apply (IH (add_line ClientNotInitialized w)).
Qed.

(** Whatever row is handled, the row of id [i] is what it was or that with
    the mark. *)
Lemma process_tweet_only_marks (cfg : config) (e : tick_env) tw (w : world)
    (i : Z) (x : option row) :
  let marked (t : table) := t !! i = x ∨ t !! i = set_posted <$> x in
  marked (tweets w) ∧ marked (conn w) →
  marked (tweets (process_tweet cfg e tw w).2)
  ∧ marked (conn (process_tweet cfg e tw w).2).
Proof.
  cbv zeta. destruct tw as [[j c] p]. intros [Ht Hc].
  destruct (process_tweet_tables cfg e j c p w) as (_ & Hconn & Htw).
  assert (conn (process_tweet cfg e (j, c, p) w).2 !! i = x
          ∨ conn (process_tweet cfg e (j, c, p) w).2 !! i = set_posted <$> x)
    as Hc'.
  { destruct Hconn as [-> | ->]; [done|].
    rewrite update_posted_lookup. case_decide; [|done].
    right. destruct Hc as [-> | ->]; [done|]. by destruct x. }
  split; [|done]. destruct Htw as [-> | ->]; done.
Qed.

Lemma for_each_only_marks (cfg : config) (e : tick_env) l (w : world)
    (i : Z) (x : option row) :
  let marked (t : table) := t !! i = x ∨ t !! i = set_posted <$> x in
  marked (tweets w) ∧ marked (conn w) →
  marked (tweets (for_each l (process_tweet cfg e) w).2)
  ∧ marked (conn (for_each l (process_tweet cfg e) w).2).
Proof.
  cbv zeta. revert w. induction l as [|tw l IH]; intros w Hw; [done|].
  rewrite for_each_process_cons. apply IH.
  by apply (process_tweet_only_marks cfg e tw w i x).
Qed.

Lemma tick_files (cfg : config) (e : tick_env) (w : world) :
  files (tick cfg e w).2 = files w.
Proof.
  rewrite tick_run.
  destruct (connect_fault e); [done|]. cbv zeta.
  destruct (select_fault e); [done|].
  destruct (close_fault e); simpl; by rewrite for_each_files.
Qed.

(** The texts one row sends: none, or its content once. *)
Lemma process_tweet_texts (cfg : config) (e : tick_env) i c p (w : world) :
  ∃ calls, api_calls (process_tweet cfg e (i, c, p) w).2 = api_calls w ++ calls
           ∧ texts_posted calls `sublist_of` [c].
Proof.
  process_cases cfg e i c p w;
    try (exists []; split; [by rewrite app_nil_r | apply sublist_nil_l]);
    rewrite <- ?app_assoc; eexists; (split; [reflexivity|]);
    rewrite ?texts_posted_app, ?texts_posted_uploads; simpl; done.
Qed.

Lemma for_each_texts (cfg : config) (e : tick_env) l (w : world) :
  ∃ calls,
    api_calls (for_each l (process_tweet cfg e) w).2 = api_calls w ++ calls
    ∧ texts_posted calls `sublist_of` l.*1.*2.
Proof.
  revert w. induction l as [|[[i c] p] l IH]; intros w.
  - exists []. by rewrite app_nil_r.
  - rewrite for_each_process_cons.
    destruct (process_tweet_texts cfg e i c p w) as (c1 & H1 & Hs1).
    destruct (IH (process_tweet cfg e (i, c, p) w).2) as (c2 & H2 & Hs2).
    exists (c1 ++ c2). rewrite H2, H1, app_assoc. split; [done|].
    rewrite texts_posted_app.
    change (((i, c, p) :: l).*1.*2) with ([c] ++ l.*1.*2).
    by apply sublist_app.
Qed.

(** A row for which [create_tweet] answers and the [UPDATE] raises: the text
    went out and the tables are as they were. *)
Lemma process_tweet_update_fails (cfg : config) (e : tick_env) i c p id ex
    (w : world) :
  client cfg = true → (String.length c ≤ 280)%nat →
  tweet_outcome e i = Ok id → update_fault e i = Some ex →
  tweets (process_tweet cfg e (i, c, p) w).2 = tweets w
  ∧ conn (process_tweet cfg e (i, c, p) w).2 = conn w
  ∧ ∃ calls, api_calls (process_tweet cfg e (i, c, p) w).2 = api_calls w ++ calls
             ∧ c ∈ texts_posted calls.
Proof.
  intros Hcl Hlen Hok Hup.
  process_cases cfg e i c p w; try congruence;
    try (apply Nat.leb_gt in Heqb0; lia).
  all: split_and!; [done..|].
  all: rewrite <- ?app_assoc; eexists; (split; [reflexivity|]).
  all: rewrite ?texts_posted_app, ?texts_posted_uploads; simpl; by left.
Qed.

(** As [tick_row], with the calls of the iteration laid out around those of
    the row. *)
Lemma tick_row_calls (cfg : config) (e : tick_env) (w : world) i r :
  connect_fault e = None → select_fault e = None →
  tweets w !! i = Some r → is_due (now e) r = true →
  ∃ w1 before after,
    row_is i (Some r) w1 ∧ files w1 = files w
    ∧ api_calls w1 = api_calls w ++ before ∧
    (∀ x, row_is i x (process_tweet cfg e (i, content r, image_paths r) w1).2 →
          tweets (tick cfg e w).2 !! i = x) ∧
    (∀ calls,
       api_calls (process_tweet cfg e (i, content r, image_paths r) w1).2
         = api_calls w1 ++ calls →
       api_calls (tick cfg e w).2 = api_calls w ++ before ++ calls ++ after).
Proof.
  intros Hc Hs Hi Hdue. rewrite tick_run, Hc, Hs. cbv zeta.
  assert ((i, content r, image_paths r) ∈ select_due (now e) (tweets w)) as Hin.
  { apply elem_of_select_due. by exists i, r. }
  pose proof (select_due_ids_NoDup (now e) (tweets w)) as Hnd.
  apply list_elem_of_split in Hin as (l1 & l2 & Hl). rewrite Hl in Hnd |- *.
  rewrite !fmap_app, !fmap_cons in Hnd. simpl in Hnd.
  apply NoDup_app in Hnd as (_ & Hl1 & Hnd).
  apply NoDup_cons in Hnd as [Hl2 _].
  assert (i ∉ l1.*1.*1) as Hl1'.
  { intros Hin. apply (Hl1 _ Hin). by left. }
  set (w0 := set_conn (tweets w) w).
  destruct (for_each_calls cfg e l1 w0) as (before & Hbefore & _).
  rewrite for_each_process_app, for_each_process_cons.
  set (w1 := (for_each l1 (process_tweet cfg e) w0).2) in *.
  set (w2 := (process_tweet cfg e (i, content r, image_paths r) w1).2).
  destruct (for_each_calls cfg e l2 w2) as (after & Hafter & _).
  exists w1, before, after. split_and!.
  - apply for_each_other; [done|]. by split.
  - unfold w1. by rewrite for_each_files.
  - exact Hbefore.
  - intros x Hx.
    eapply for_each_other in Hx; [|exact Hl2].
    destruct Hx as [Hx _]. destruct (close_fault e); exact Hx.
  - intros calls Hcalls.
    assert (api_calls (for_each l2 (process_tweet cfg e) w2).2
            = api_calls w ++ before ++ calls ++ after) as Hall.
    { rewrite Hafter. unfold w2. rewrite Hcalls, Hbefore.
      by rewrite <- !app_assoc. }
    by destruct (close_fault e).
Qed.

Lemma tick_only_marks (cfg : config) (e : tick_env) (w : world) (i : Z) :
  tweets (tick cfg e w).2 !! i = tweets w !! i
  ∨ tweets (tick cfg e w).2 !! i = set_posted <$> tweets w !! i.
Proof.
  rewrite tick_run.
  destruct (connect_fault e); [by left|]. cbv zeta.
  destruct (select_fault e); [by left|].
  destruct (for_each_only_marks cfg e (select_due (now e) (tweets w))
              (set_conn (tweets w) w) i (tweets w !! i)) as [Ht _].
  { split; by left. }
  by destruct (close_fault e).
Qed.

Lemma tick_disabled (cfg : config) (e : tick_env) (w : world) :
  client cfg = false ∨ is_Some (connect_fault e) ∨ is_Some (select_fault e) →
  tweets (tick cfg e w).2 = tweets w
  ∧ files (tick cfg e w).2 = files w
  ∧ api_calls (tick cfg e w).2 = api_calls w.
Proof.
  intros Hoff. rewrite tick_run.
  destruct (connect_fault e) as [ex|]; [done|]. cbv zeta.
  destruct (select_fault e) as [ex|]; [done|].
  destruct Hoff as [Hcl | [[? [=]] | [? [=]]]].
  destruct (for_each_no_client cfg e (select_due (now e) (tweets w))
              (set_conn (tweets w) w) Hcl) as (Ht & _ & Hf & Hc).
  by destruct (close_fault e).
Qed.

Lemma loop_only_marks (cfg : config) (env : nat → tick_env) (n k : nat)
    (w : world) (i : Z) :
  tweets (check_and_post_tweets cfg env k n w).2 !! i = tweets w !! i
  ∨ tweets (check_and_post_tweets cfg env k n w).2 !! i
    = set_posted <$> tweets w !! i.
Proof.
  revert k w. induction n as [|n IH]; intros k w; [by left|].
  rewrite loop_step.
  destruct (IH (S k) (tick cfg (env k) w).2) as [-> | ->];
    destruct (tick_only_marks cfg (env k) w i) as [-> | ->]; auto.
  right. by destruct (tweets w !! i).
Qed.

Lemma row_ok_set_posted (r : row) : row_ok r → row_ok (set_posted r).
Proof. intros (? & ? & ? & ? & ?). split_and!; simpl; auto. Qed.

Lemma handles_obtained_length (fs : gmap string string)
    (outcome : nat → result Z) (paths : list string) :
  ∀ n, (length (handles_obtained fs outcome n paths) ≤ length paths)%nat.
Proof.
  induction paths as [|p rest IH]; intros n; simpl; [done|].
  specialize (IH (S n)).
  destruct (stored fs p), (outcome n); simpl; lia.
Qed.

Lemma media_ids_resolved_length (cfg : config) (fs : gmap string string)
    (outcome : nat → result Z) (paths : list string) :
  (length (media_ids_resolved cfg fs outcome paths) ≤ length paths)%nat.
Proof.
  unfold media_ids_resolved. destruct (api_v1 cfg); simpl; [|lia].
  apply handles_obtained_length.
Qed.

Lemma at_most_four_uploads (cfg : config) (fs : gmap string string)
    (paths : list string) :
  Forall at_most_four_media (calls_of_upload cfg fs paths).
Proof.
  unfold calls_of_upload, uploads_attempted. destruct (api_v1 cfg); [|done].
  by apply Forall_fmap, Forall_true.
Qed.

Lemma at_most_four_create (cfg : config) (fs : gmap string string)
    (outcome : nat → result Z) (paths : list string) (text : string) :
  (length paths ≤ 4)%nat →
  at_most_four_media
    (CreateTweet text
       (if truthy (Some (media_ids_resolved cfg fs outcome paths))
        then Some (media_ids_resolved cfg fs outcome paths) else None)).
Proof.
  intros Hlen. pose proof (media_ids_resolved_length cfg fs outcome paths).
  destruct (truthy _); simpl; [lia|done].
Qed.

Lemma process_tweet_at_most_four (cfg : config) (e : tick_env) i c p
    (w : world) :
  (length (default [] p) ≤ 4)%nat →
  ∃ calls, api_calls (process_tweet cfg e (i, c, p) w).2 = api_calls w ++ calls
           ∧ Forall at_most_four_media calls.
Proof.
  intros Hlen.
  process_cases cfg e i c p w;
    try (exists []; by rewrite app_nil_r);
    rewrite <- ?app_assoc; eexists; (split; [reflexivity|]);
    rewrite ?Forall_app; repeat split;
    try apply at_most_four_uploads;
    apply Forall_singleton;
    first [ done
          | exact (at_most_four_create cfg (files w) (upload_outcome e i)
                     _ c Hlen) ].
Qed.

Lemma for_each_at_most_four (cfg : config) (e : tick_env) l (w : world) :
  Forall (λ tw, (length (default [] tw.2) ≤ 4)%nat) l →
  ∃ calls,
    api_calls (for_each l (process_tweet cfg e) w).2 = api_calls w ++ calls
    ∧ Forall at_most_four_media calls.
Proof.
  intros Hl. revert w. induction Hl as [|[[i c] p] l Hp Hl IH]; intros w.
  - exists []. by rewrite app_nil_r.
  - rewrite for_each_process_cons.
    destruct (process_tweet_at_most_four cfg e i c p w Hp) as (c1 & H1 & Hw1).
    destruct (IH (process_tweet cfg e (i, c, p) w).2) as (c2 & H2 & Hw2).
    exists (c1 ++ c2). rewrite H2, H1, app_assoc. split; [done|].
    by apply Forall_app.
Qed.

(** ** More on the request handlers *)

Lemma max_id_nonneg (t : table) : 0 ≤ max_id t.
Proof.
  unfold max_id. induction ((map_to_list t).*1) as [|x l IH]; simpl; lia.
Qed.

Lemma image_paths_json_of_default (paths : list string) :
  default [] (image_paths_json_of paths) = paths.
Proof. by destruct paths. Qed.

Lemma stored_names_saved (e : request_env) (fs : list file_storage) :
  ∀ (n : nat) (store : gmap string string) (p : string),
    p ∈ stored_names e n fs →
    is_Some (files_after_saving e n fs store !! path_join UPLOAD_FOLDER p).
Proof.
  induction fs as [|file rest IH]; intros n store p Hp; simpl in *.
  - by apply elem_of_nil in Hp.
  - case_bool_decide; [by apply IH|].
    apply elem_of_cons in Hp as [-> | Hp]; [|by apply IH].
    apply files_after_saving_keeps. rewrite lookup_insert_eq. by eexists.
Qed.

Lemma stored_names_length (e : request_env) (fs : list file_storage) :
  ∀ n, length (stored_names e n fs)
       = length (filter (λ f, filename f ≠ "") fs).
Proof.
  induction fs as [|file rest IH]; intros n; simpl; [done|].
  rewrite filter_cons. case_bool_decide.
  - rewrite decide_False by naive_solver. apply IH.
  - rewrite decide_True by done. simpl. by rewrite IH.
Qed.

Lemma filter_all {A} (P : A → Prop) `{∀ x, Decision (P x)} (l : list A) :
  Forall P l → filter P l = l.
Proof.
  induction 1 as [|x l Hx Hl IH]; [done|].
  rewrite filter_cons, decide_True by done. by rewrite IH.
Qed.

Lemma contains_last_segment (c : ascii) (s : string) :
  contains c (last_segment c s) = false.
Proof.
  induction s as [|c' s IH]; [done|].
  cbn [last_segment]. destruct (contains c (String c' s)) eqn:Hc; done.
Qed.

Lemma contains_last_segment_other (c d : ascii) (s : string) :
  contains c s = false → contains c (last_segment d s) = false.
Proof.
  induction s as [|c' s IH]; [done|]. intros Hc.
  cbn [last_segment]. destruct (contains d (String c' s)); [|done].
  apply IH. simpl in Hc. by apply orb_false_iff in Hc as [_ ?].
Qed.

Lemma file_name_of_no_slash (path : string) :
  contains "/" (file_name_of path) = false.
Proof.
  unfold file_name_of. destruct (contains "/" path) eqn:Hs.
  - apply contains_last_segment.
  - destruct (contains "\" path); [|done].
    by apply contains_last_segment_other.
Qed.

Lemma path_join_relative (name : string) :
  contains "/" name = false →
  path_join UPLOAD_FOLDER name = "uploads/" +:+ name.
Proof.
  destruct name as [|c name]; [done|]. simpl. intros Hc.
  apply orb_false_iff in Hc as [Hc _].
  destruct c as [[] [] [] [] [] [] [] []]; try done.
Qed.

Lemma paths_uploaded_app (l1 l2 : list api_call) :
  paths_uploaded (l1 ++ l2) = paths_uploaded l1 ++ paths_uploaded l2.
Proof.
  induction l1 as [|[path|text ids] l1 IH]; simpl; [done|by rewrite IH|done].
Qed.

Lemma paths_uploaded_uploads (cfg : config) (fs : gmap string string)
    (names : list string) (path : string) :
  path ∈ paths_uploaded (calls_of_upload cfg fs names) →
  ∃ name, name ∈ names ∧ path = path_join UPLOAD_FOLDER name.
Proof.
  unfold calls_of_upload, uploads_attempted.
  destruct (api_v1 cfg); [|by intros ?%elem_of_nil].
  induction names as [|n names IH]; [by intros ?%elem_of_nil|].
  rewrite filter_cons. destruct (decide _); simpl.
  - intros [-> | Hin]%elem_of_cons.
    + exists n. split; [by left|done].
    + destruct (IH Hin) as (name & ? & ?). exists name. split; [by right|done].
  - intros Hin. destruct (IH Hin) as (name & ? & ?).
    exists name. split; [by right|done].
Qed.

(** The case analysis of [post_now_run], with the tests turned into facts. *)
Ltac post_now_cases cfg e rq w :=
  rewrite (post_now_run cfg e rq w);
  destruct (client cfg) eqn:Hclient; unfold negb; cbv iota zeta;
  [ destruct (request_raises e rq) as [save_ex|] eqn:Hsave;
    [ |
    destruct (bool_decide (content_of rq = "")) eqn:Hcontent;
    [ apply bool_decide_eq_true in Hcontent
    | apply bool_decide_eq_false in Hcontent;
      destruct (280 <? String.length (content_of rq))%nat eqn:Hlength;
      [ apply Nat.ltb_lt in Hlength
      | apply Nat.ltb_ge in Hlength;
        destruct (4 <? length (image_paths_of e rq))%nat eqn:Himages;
        [ apply Nat.ltb_lt in Himages
        | apply Nat.ltb_ge in Himages;
          destruct (rq_tweet_outcome e) as [tweet_id|ex] eqn:Houtcome;
          destruct (file_name_of <$> image_paths_of e rq) as [|name names] ] ] ] ]
  | ];
  simpl.

Lemma schedule_tweet_success_valid (e : request_env) (rq : request)
    (w : world) (i : Z) :
  (schedule_tweet e rq w).1 = Ok (Scheduled i) →
  content_of rq ≠ "" ∧ scheduled_time_of rq ≠ ""
  ∧ (length (image_paths_of e rq) ≤ 4)%nat.
Proof. schedule_cases e rq w; done. Qed.

Lemma image_paths_json_of_ok (paths : list string) :
  image_paths_json_of paths ≠ Some [].
Proof. by destruct paths. Qed.

Lemma post_now_at_most_four (cfg : config) (e : request_env) (rq : request)
    (w : world) :
  ∃ calls, api_calls (post_now cfg e rq w).2 = api_calls w ++ calls
           ∧ Forall at_most_four_media calls.
Proof.
  rewrite post_now_run.
  destruct (client cfg); unfold negb; cbv iota zeta;
    [|exists []; by rewrite app_nil_r].
  destruct (request_raises e rq); [exists []; by rewrite app_nil_r|].
  case_bool_decide; [exists []; by rewrite app_nil_r|].
  destruct (280 <? String.length (content_of rq))%nat;
    [exists []; by rewrite app_nil_r|].
  destruct (4 <? length (image_paths_of e rq))%nat eqn:Himg;
    [exists []; by rewrite app_nil_r|].
  apply Nat.ltb_ge in Himg.
  assert (length (file_name_of <$> image_paths_of e rq) ≤ 4)%nat as Hlen
    by by rewrite length_fmap.
  destruct (file_name_of <$> image_paths_of e rq) as [|name names];
    destruct (rq_tweet_outcome e); simpl;
    rewrite <- ?app_assoc; eexists; (split; [reflexivity|]);
    rewrite ?Forall_app; repeat split;
    try apply at_most_four_uploads;
    apply Forall_singleton;
    first [ done
          | exact (at_most_four_create cfg _ (rq_upload_outcome e) _ _ Hlen) ].
Qed.

Lemma media_argument_truthy (handles : list Z) :
  (if truthy (Some handles) then Some handles else None)
  = media_argument handles.
Proof. by destruct handles. Qed.

Lemma media_ids_resolved_nil (cfg : config) (fs : gmap string string)
    (outcome : nat → result Z) :
  media_ids_resolved cfg fs outcome [] = [].
Proof. unfold media_ids_resolved. by destruct (api_v1 cfg). Qed.

Lemma calls_of_upload_nil (cfg : config) (fs : gmap string string) :
  calls_of_upload cfg fs [] = [].
Proof. unfold calls_of_upload. by destruct (api_v1 cfg). Qed.

(** The calls [process_tweet] makes for a row it publishes: the uploads of
    its stored images, then [create_tweet] with the handles obtained. *)
Lemma process_tweet_publishes (cfg : config) (e : tick_env) i c p (w : world) :
  client cfg = true → (String.length c ≤ 280)%nat →
  api_calls (process_tweet cfg e (i, c, p) w).2
  = api_calls w ++ calls_of_upload cfg (files w) (default [] p)
      ++ [CreateTweet c
            (media_argument
               (media_ids_resolved cfg (files w) (upload_outcome e i)
                  (default [] p)))].
Proof.
  intros Hcl Hlen.
  process_cases cfg e i c p w; try congruence;
    try (apply Nat.leb_gt in Heqb0; lia);
    rewrite ?media_ids_resolved_nil, ?calls_of_upload_nil;
    rewrite <- ?app_assoc; simpl;
    first [ done
          | by rewrite <- (media_argument_truthy
                             (media_ids_resolved cfg (files w)
                                (upload_outcome e i) _)) ].
Qed.

(** The same for [post_now] once its tests are passed. *)
Lemma post_now_publishes (cfg : config) (e : request_env) (rq : request)
    (w : world) :
  client cfg = true → request_raises e rq = None →
  content_of rq ≠ "" → (String.length (content_of rq) ≤ 280)%nat →
  (length (image_paths_of e rq) ≤ 4)%nat →
  api_calls (post_now cfg e rq w).2
  = api_calls w
      ++ calls_of_upload cfg (files_after_request e rq (files w))
           (file_name_of <$> image_paths_of e rq)
      ++ [CreateTweet (content_of rq)
            (media_argument
               (media_ids_resolved cfg (files_after_request e rq (files w))
                  (rq_upload_outcome e)
                  (file_name_of <$> image_paths_of e rq)))].
Proof.
  intros Hcl Hsv Hc Hlen Himg. rewrite post_now_run, Hcl, Hsv.
  unfold negb. cbv iota zeta.
  rewrite bool_decide_false by done.
  apply Nat.ltb_ge in Hlen. rewrite Hlen.
  apply Nat.ltb_ge in Himg. rewrite Himg.
  rewrite (files_left_by_request_all_saved e rq (files w) Hsv).
  destruct (file_name_of <$> image_paths_of e rq) as [|name names];
    destruct (rq_tweet_outcome e); simpl;
    rewrite ?media_ids_resolved_nil, ?calls_of_upload_nil;
    rewrite <- ?app_assoc; simpl;
    first [ done
          | by rewrite <- (media_argument_truthy
                             (media_ids_resolved cfg _ (rq_upload_outcome e) _)) ].
Qed.

(** The calls of an iteration for a due row it publishes. *)
Lemma tick_publishes (cfg : config) (e : tick_env) (w : world) i r :
  client cfg = true →
  connect_fault e = None → select_fault e = None →
  tweets w !! i = Some r → is_due (now e) r = true →
  (String.length (content r) ≤ 280)%nat →
  ∃ before after,
    api_calls (tick cfg e w).2
    = api_calls w ++ before
        ++ (calls_of_upload cfg (files w) (default [] (image_paths r))
            ++ [CreateTweet (content r)
                  (media_argument
                     (media_ids_resolved cfg (files w) (upload_outcome e i)
                        (default [] (image_paths r))))])
        ++ after.
Proof.
  intros Hcl Hc Hs Hi Hdue Hlen.
  destruct (tick_row_calls cfg e w i r Hc Hs Hi Hdue)
    as (w1 & before & after & _ & Hfiles & _ & _ & Hcalls).
  exists before, after. apply Hcalls.
  rewrite process_tweet_publishes by done. by rewrite Hfiles.
Qed.

(** * The delivery contract *)

(** C3, as the code has it.  When the client is configured and the store
    takes the update, one iteration marks a due row whose content has more
    than 280 characters ([posted = 1]); from then on, however many iterations
    follow, the row keeps that mark, is never selected again, and no
    [create_tweet] call carries its content. *)
Theorem oversized_marked_never_published (cfg : config) (e : tick_env)
    (w : world) (i : Z) (r : row) :
  client cfg = true →
  connect_fault e = None → select_fault e = None →
  update_fault e i = None → commit_fault e i = None →
  tweets w !! i = Some r → is_due (now e) r = true →
  (280 < String.length (content r))%nat →
  ∀ (env : nat → tick_env) (k n : nat),
    let w' := (check_and_post_tweets cfg env k n (tick cfg e w).2).2 in
    tweets w' !! i = Some (set_posted r)
    ∧ (∀ now', i ∉ (select_due now' (tweets w')).*1.*1)
    ∧ ∃ calls, api_calls w' = api_calls w ++ calls
               ∧ Forall (λ call, ∀ ids, call ≠ CreateTweet (content r) ids) calls.
Proof.
  intros Hcl Hc Hs Hu Hco Hi Hdue Hlen env k n w'.
  assert (tweets (tick cfg e w).2 !! i = Some (set_posted r)) as Htick.
  { destruct (tick_row cfg e w i r Hc Hs Hi Hdue) as (w1 & [_ Hw1] & _ & Hrow & _).
    apply Hrow.
    destruct (process_tweet_marks cfg e i (content r) (image_paths r) w1)
      as [Hconn Htw]; [done..|by left|].
    split; rewrite ?Hconn, ?Htw, update_posted_lookup, decide_True, Hw1; done. }
  assert (tweets w' !! i = Some (set_posted r)) as Hw'.
  { apply loop_keeps_posted; done. }
  split_and!; [done| |].
  - intros now' Hin.
    apply list_elem_of_fmap in Hin as ([j c] & Hij & Hin).
    simpl in Hij. subst j.
    apply list_elem_of_fmap in Hin as ([[j' c'] p] & Heq & Hin).
    simpl in Heq. injection Heq as <- <-.
    apply elem_of_select_due in Hin as (j2 & r' & Hj & Hd & Heq).
    injection Heq as <- _ _. rewrite Hw' in Hj. injection Hj as <-.
    by rewrite is_due_not_pending in Hd.
  - destruct (tick_calls cfg e w) as (c1 & H1 & Hw1).
    destruct (loop_calls cfg env n k (tick cfg e w).2) as (c2 & H2 & Hw2).
    exists (c1 ++ c2). subst w'. rewrite H2, H1, app_assoc. split; [done|].
    assert (Forall well_formed_call (c1 ++ c2)) as Hwf by by apply Forall_app.
    eapply Forall_impl; [exact Hwf|].
    intros call Hcall ids ->. destruct Hcall as [Hle _]. lia.
Qed.

(** C4. When [create_tweet] raises for a due row, the iteration leaves the
    row as it was, still pending, and every later selection at a time not
    before this one returns it again. *)
Theorem failed_publish_leaves_pending (cfg : config) (e : tick_env)
    (w : world) (i : Z) (r : row) (ex : exn) :
  client cfg = true →
  connect_fault e = None → select_fault e = None →
  tweets w !! i = Some r → is_due (now e) r = true →
  (String.length (content r) ≤ 280)%nat →
  tweet_outcome e i = Raise ex →
  tweets (tick cfg e w).2 !! i = Some r
  ∧ pending r
  ∧ ∀ now', String.leb (now e) now' = true →
      (i, content r, image_paths r) ∈ select_due now' (tweets (tick cfg e w).2).
Proof.
  intros _ Hc Hs Hi Hdue Hlen Hraise.
  assert (tweets (tick cfg e w).2 !! i = Some r) as Htick.
  { destruct (tick_row cfg e w i r Hc Hs Hi Hdue) as (w1 & [Ht1 Hc1] & _ & Hrow & _).
    apply Hrow.
    destruct (process_tweet_publish_fails cfg e i (content r) (image_paths r)
                ex w1 Hlen Hraise) as [Htw Hconn].
    split; rewrite ?Htw, ?Hconn; done. }
  apply is_due_spec in Hdue as [Hp Hle].
  split_and!; [done..|].
  intros now' Hnow. apply elem_of_select_due. exists i, r.
  split_and!; [done| |done]. apply is_due_spec. split; [done|].
  by eapply string_leb_trans.
Qed.

(** C7. Marking a row posted a second time changes nothing: the update is
    idempotent on the table, it leaves [posted = 1] at the row and touches
    no other row, and running update and commit twice gives the same world
    as running them once. *)
Theorem mark_posted_idempotent (tweet_id : Z) (t : table) (w : world) :
  update_posted tweet_id (update_posted tweet_id t) = update_posted tweet_id t
  ∧ (∀ r, t !! tweet_id = Some r → posted r = 1 →
          update_posted tweet_id t = t)
  ∧ (∀ r, update_posted tweet_id t !! tweet_id = Some r → posted r = 1)
  ∧ (∀ j, j ≠ tweet_id → update_posted tweet_id t !! j = t !! j)
  ∧ (let mark := execute_update None tweet_id;; commit None in
     (mark;; mark) w = mark w).
Proof.
  split_and!.
  - apply update_posted_idemp.
  - intros r Hr Hp. apply map_eq. intros j. rewrite update_posted_lookup.
    case_decide; [|done]. subst j. rewrite Hr. simpl. f_equal.
    destruct r; simpl in *; by subst.
  - intros r. rewrite update_posted_lookup, decide_True by done.
    destruct (t !! tweet_id); [|done]. by intros [= <-].
  - intros j Hj. rewrite update_posted_lookup. by rewrite decide_False.
  - run. unfold set_tweets, set_conn. simpl. by rewrite update_posted_idemp.
Qed.


(** C5. The upload helper never raises and is decided reference by
    reference: a reference whose file is missing yields nothing, a stored
    reference is sent to the remote API whatever happened to the references
    before it, and the handles returned are those of the stored references
    the API answered, in order (none when [api_v1] was never initialised).
    When no handle was obtained, a due row is published without the
    [media_ids] argument and is marked posted. *)
Theorem media_upload_tolerates_failures (cfg : config) :
  (∀ (outcome : nat → result Z) (paths : list string) (w : world),
     upload_media_to_twitter cfg outcome paths w =
       (Ok (media_ids_resolved cfg (files w) outcome paths),
        World (tweets w) (conn w) (files w)
          (api_calls w ++ calls_of_upload cfg (files w) paths)
          (stdout w ++ lines_of_upload cfg (files w) outcome paths)))
  ∧ (∀ fs outcome paths (media_id : Z),
       media_id ∈ media_ids_resolved cfg fs outcome paths ↔
       api_v1 cfg = true
       ∧ ∃ (k : nat) (p : string),
           paths !! k = Some p ∧ is_Some (fs !! path_join UPLOAD_FOLDER p)
           ∧ outcome k = Ok media_id)
  ∧ (∀ fs paths (call : api_call),
       call ∈ calls_of_upload cfg fs paths ↔
       api_v1 cfg = true
       ∧ ∃ p, p ∈ paths ∧ is_Some (fs !! path_join UPLOAD_FOLDER p)
              ∧ call = MediaUpload (path_join UPLOAD_FOLDER p))
  ∧ (∀ (e : tick_env) (w : world) (i : Z) (r : row),
       client cfg = true →
       connect_fault e = None → select_fault e = None →
       update_fault e i = None → commit_fault e i = None →
       tweets w !! i = Some r → is_due (now e) r = true →
       (String.length (content r) ≤ 280)%nat →
       media_ids_resolved cfg (files w) (upload_outcome e i)
         (default [] (image_paths r)) = [] →
       (∃ id, tweet_outcome e i = Ok id) →
       tweets (tick cfg e w).2 !! i = Some (set_posted r)
       ∧ CreateTweet (content r) None ∈ api_calls (tick cfg e w).2).
Proof.
  split_and!.
  - apply upload_media_to_twitter_spec.
  - intros fs outcome paths media_id. unfold media_ids_resolved.
    destruct (api_v1 cfg).
    + rewrite elem_of_handles_obtained. unfold stored.
      setoid_rewrite bool_decide_eq_true. simpl. intuition.
    + rewrite elem_of_nil. intuition congruence.
  - intros fs paths call. unfold calls_of_upload, uploads_attempted.
    destruct (api_v1 cfg).
    + rewrite list_elem_of_fmap. setoid_rewrite list_elem_of_filter.
      unfold stored. setoid_rewrite bool_decide_spec. split.
      * intros (p & -> & Hst & Hin). eauto 10.
      * intros (_ & p & Hin & Hst & ->). eauto.
    + rewrite elem_of_nil. intuition congruence.
  - intros e w i r Hcl Hc Hs Hu Hco Hi Hdue Hlen Hnone Hok.
    destruct (tick_row cfg e w i r Hc Hs Hi Hdue)
      as (w1 & [_ Hw1] & Hfiles & Hrow & Hcalls).
    split.
    + apply Hrow.
      destruct (process_tweet_marks cfg e i (content r) (image_paths r) w1)
        as [Hconn Htw]; [done..|by right|].
      split; rewrite ?Hconn, ?Htw, update_posted_lookup, decide_True, Hw1; done.
    + apply Hcalls, process_tweet_text_only; [done..|]. by rewrite Hfiles.
Qed.

(** C9. A row carries one flag.  Whether a due row was skipped for its size
    or delivered, the iteration leaves the same row behind, with
    [posted = 1], and the listing shows it with [posted = true]. *)
Theorem skipped_and_delivered_look_alike (cfg : config) (e : tick_env)
    (w : world) (i : Z) (r : row) :
  client cfg = true →
  connect_fault e = None → select_fault e = None →
  update_fault e i = None → commit_fault e i = None →
  tweets w !! i = Some r → is_due (now e) r = true →
  (280 < String.length (content r))%nat ∨ (∃ id, tweet_outcome e i = Ok id) →
  tweets (tick cfg e w).2 !! i = Some (set_posted r)
  ∧ posted (set_posted r) = 1
  ∧ Forall (λ j, json_id j = i → json_posted j = true)
      (get_tweets (tweets (tick cfg e w).2))
  ∧ ((size (tweets (tick cfg e w).2) ≤ 50)%nat →
     to_json (i, set_posted r) ∈ get_tweets (tweets (tick cfg e w).2)).
Proof.
  intros Hcl Hc Hs Hu Hco Hi Hdue Hcase.
  assert (tweets (tick cfg e w).2 !! i = Some (set_posted r)) as Htick.
  { destruct (tick_row cfg e w i r Hc Hs Hi Hdue) as (w1 & [_ Hw1] & _ & Hrow & _).
    apply Hrow.
    destruct (process_tweet_marks cfg e i (content r) (image_paths r) w1)
      as [Hconn Htw]; [done..|].
    split; rewrite ?Hconn, ?Htw, update_posted_lookup, decide_True, Hw1; done. }
  split_and!; [done..| |].
  - apply Forall_forall. intros j Hj Hid.
    apply elem_of_get_tweets in Hj as (i' & r' & Hi' & ->).
    simpl in Hid. subst i'. rewrite Htick in Hi'. by injection Hi' as <-.
  - intros Hsize. by apply get_tweets_small.
Qed.

(** C2, as the code has it.  A submission gets a 400 response when its
    content is empty once surrounding white space is removed, when its
    scheduled time is empty or is not an ISO-8601 text, when it has more
    than 4 images, or when its scheduled time is before the clock; an
    exception of [file.save] or of the database driver is reported as a 400
    too, and every outcome is the success or a 400.  A submission that gets
    anything but a success leaves the table as it was; a success stores one
    new pending row, holding the stripped content, under a new id and
    returns that id; and a submission with content, with at most 4 images
    and with a scheduled time after the clock succeeds when its files can
    be saved and the store works. *)
Theorem schedule_tweet_contract (e : request_env) (rq : request) (w : world) :
  let res := schedule_tweet e rq w in
  let st := scheduled_time_of rq in
  let id := lastrowid (tweets w) in
  let new_row :=
    Row (content_of rq) st 0 (image_paths_json_of (image_paths_of e rq))
      (current_timestamp e) in
  (content_of rq = "" ∨ st = "" ∨ (4 < length (image_paths_of e rq))%nat
   ∨ fromisoformat e (replace_Z st) = None
   ∨ (∃ d, fromisoformat e (replace_Z st) = Some d
           ∧ wall d < wall (datetime_now e (utcoffset d)))
   → rejected res.1)
  ∧ ((∀ i, res.1 ≠ Ok (Scheduled i)) → tweets res.2 = tweets w)
  ∧ (∀ i, res.1 = Ok (Scheduled i) →
          i = id ∧ tweets w !! id = None
          ∧ tweets res.2 = <[id := new_row]> (tweets w) ∧ pending new_row)
  ∧ (content_of rq ≠ "" → st ≠ "" → (length (image_paths_of e rq) ≤ 4)%nat →
     (∃ d, fromisoformat e (replace_Z st) = Some d
           ∧ wall (datetime_now e (utcoffset d)) < wall d) →
     request_raises e rq = None →
     rq_connect_fault e = None → rq_insert_fault e = None →
     rq_commit_fault e = None →
     res.1 = Ok (Scheduled id))
  ∧ (res.1 = Ok (Scheduled id) ∨ rejected res.1)
  ∧ (∀ ex,
       request_raises e rq = Some ex
       ∨ (request_raises e rq = None ∧ content_of rq ≠ "" ∧ st ≠ ""
          ∧ (length (image_paths_of e rq) ≤ 4)%nat
          ∧ (∃ d, fromisoformat e (replace_Z st) = Some d
                  ∧ wall (datetime_now e (utcoffset d)) < wall d)
          ∧ (rq_connect_fault e = Some ex
             ∨ (rq_connect_fault e = None ∧ rq_insert_fault e = Some ex)
             ∨ (rq_connect_fault e = None ∧ rq_insert_fault e = None
                ∧ rq_commit_fault e = Some ex))) →
       res.1 = Ok (BadRequestExn ex) ∧ tweets res.2 = tweets w).
Proof.
  cbv zeta. split_and!.
  - apply schedule_tweet_rejects.
  - apply schedule_tweet_keeps_table.
  - intros i Hi. apply schedule_tweet_success in Hi as [-> Ht].
    split_and!; [done | apply lastrowid_fresh | done | done].
  - intros Hc Ht Hi (d & Hd & Hfuture) Hsv Hcf Hif Hcof.
    apply schedule_tweet_accepts; try done. exists d. split; [done|lia].
  - apply schedule_tweet_answers.
  - intros ex Hex.
    assert ((schedule_tweet e rq w).1 = Ok (BadRequestExn ex)) as Hres.
    { apply schedule_tweet_reports.
      destruct Hex as [? | (? & ? & ? & ? & (d & ? & ?) & ?)]; [by left|].
      right. split_and!; try done. exists d. split; [done|lia]. }
    split; [done|]. apply schedule_tweet_keeps_table.
    intros i. by rewrite Hres.
Qed.

(** C6. Every [create_tweet] call the program makes carries a text of at
    most 280 characters and either no [media_ids] argument or a non-empty
    one.  [post_tweet] passes the handles exactly when there is at least
    one; the scheduler, for a row of at most 280 characters, and [post_now],
    for a request that passed its tests, upload the stored images and then
    call [create_tweet] with the content and with the handles the upload
    gave, leaving the argument out when it gave none; both check the length
    first, so that a content of more than 280 characters causes no call at
    all. *)
Theorem publisher_validates_then_posts (cfg : config) :
  (∀ outcome text (media_ids : option (list Z)) (w : world),
     post_tweet outcome text media_ids w =
       (outcome,
        add_call (CreateTweet text
                    match media_ids with
                    | Some (m :: ms) => Some (m :: ms)
                    | _ => None
                    end) w))
  ∧ (∀ (e : tick_env) (w : world),
       ∃ calls, api_calls (tick cfg e w).2 = api_calls w ++ calls
                ∧ Forall well_formed_call calls)
  ∧ (∀ (e : request_env) (rq : request) (w : world),
       ∃ calls, api_calls (post_now cfg e rq w).2 = api_calls w ++ calls
                ∧ Forall well_formed_call calls)
  ∧ (∀ (e : tick_env) i c p (w : world),
       (280 < String.length c)%nat →
       api_calls (process_tweet cfg e (i, c, p) w).2 = api_calls w)
  ∧ (∀ (e : request_env) (rq : request) (w : world),
       (280 < String.length (content_of rq))%nat →
       api_calls (post_now cfg e rq w).2 = api_calls w)
  ∧ (∀ (e : tick_env) i c p (w : world),
       client cfg = true → (String.length c ≤ 280)%nat →
       api_calls (process_tweet cfg e (i, c, p) w).2
       = api_calls w ++ calls_of_upload cfg (files w) (default [] p)
           ++ [CreateTweet c
                 (media_argument
                    (media_ids_resolved cfg (files w) (upload_outcome e i)
                       (default [] p)))])
  ∧ (∀ (e : tick_env) (w : world) (i : Z) (r : row),
       client cfg = true →
       connect_fault e = None → select_fault e = None →
       tweets w !! i = Some r → is_due (now e) r = true →
       (String.length (content r) ≤ 280)%nat →
       ∃ before after,
         api_calls (tick cfg e w).2
         = api_calls w ++ before
             ++ (calls_of_upload cfg (files w) (default [] (image_paths r))
                 ++ [CreateTweet (content r)
                       (media_argument
                          (media_ids_resolved cfg (files w)
                             (upload_outcome e i)
                             (default [] (image_paths r))))])
             ++ after)
  ∧ (∀ (e : request_env) (rq : request) (w : world),
       client cfg = true → request_raises e rq = None →
       content_of rq ≠ "" → (String.length (content_of rq) ≤ 280)%nat →
       (length (image_paths_of e rq) ≤ 4)%nat →
       api_calls (post_now cfg e rq w).2
       = api_calls w
           ++ calls_of_upload cfg (files_after_request e rq (files w))
                (file_name_of <$> image_paths_of e rq)
           ++ [CreateTweet (content_of rq)
                 (media_argument
                    (media_ids_resolved cfg
                       (files_after_request e rq (files w))
                       (rq_upload_outcome e)
                       (file_name_of <$> image_paths_of e rq)))]).
Proof.
  split_and!.
  - intros outcome text media_ids w. rewrite post_tweet_run.
    by destruct media_ids as [[|m ms]|].
  - apply tick_calls.
  - apply post_now_calls.
  - intros. by apply process_tweet_oversized.
  - intros. by apply post_now_oversized.
  - intros. by apply process_tweet_publishes.
  - intros. by apply tick_publishes.
  - intros. by apply post_now_publishes.
Qed.

(** C10. For a form, the files are saved before anything is checked.  A
    form that is rejected by one of the tests of the handler (its content,
    its scheduled time, its number of images) leaves every file that came
    with a name in the upload folder, under its stored name, and no row;
    when every file can be saved this is what happens to a form without
    content, with more than 4 images or with a time before the clock, and
    the files are in place whatever the response.  When a [file.save]
    raises, the response is a 400 with its text, no row is stored, and the
    files saved before it stay. *)
Theorem uploads_saved_before_validation (e : request_env)
    (c st : option string) (images : list file_storage) (w : world) :
  let rq := FormBody c st images in
  let res := schedule_tweet e rq w in
  (validation_error res.1 →
   files res.2 = files_after_saving e 0 images (files w)
   ∧ (∀ (k : nat) (file : file_storage),
        images !! k = Some file → filename file ≠ "" →
        is_Some (files res.2
                 !! path_join UPLOAD_FOLDER (stored_name e k file)))
   ∧ tweets res.2 = tweets w)
  ∧ (uploads_raise e 0 images = None →
     content_of rq = "" ∨ (4 < length (stored_names e 0 images))%nat
     ∨ (∃ d, fromisoformat e (replace_Z (scheduled_time_of rq)) = Some d
             ∧ wall d < wall (datetime_now e (utcoffset d))) →
     validation_error res.1)
  ∧ (uploads_raise e 0 images = None →
     files res.2 = files_after_saving e 0 images (files w))
  ∧ (∀ ex, uploads_raise e 0 images = Some ex →
       res.1 = Ok (BadRequestExn ex) ∧ tweets res.2 = tweets w
       ∧ files res.2 = files_left e 0 images (files w)).
Proof.
  cbv zeta.
  assert (uploads_raise e 0 images = None →
          files (schedule_tweet e (FormBody c st images) w).2
          = files_after_saving e 0 images (files w)) as Hall.
  { intros Hsv. rewrite (schedule_tweet_files e (FormBody c st images) w).
    simpl. by apply files_left_all_saved. }
  split_and!.
  - intros Hval.
    pose proof (schedule_tweet_validation e (FormBody c st images) w Hval)
      as Hsv. simpl in Hsv.
    split_and!.
    + by apply Hall.
    + intros k file Hk Hname. rewrite (Hall Hsv).
      by apply (files_after_saving_has e images 0 k).
    + apply schedule_tweet_keeps_table. intros i Hi. by rewrite Hi in Hval.
  - intros Hsv Hrej.
    by apply (schedule_tweet_validates e (FormBody c st images) w).
  - exact Hall.
  - intros ex Hex.
    assert ((schedule_tweet e (FormBody c st images) w).1
            = Ok (BadRequestExn ex)) as Hres.
    { apply schedule_tweet_reports. by left. }
    split_and!; [done| |].
    + apply schedule_tweet_keeps_table. intros i. by rewrite Hres.
    + apply (schedule_tweet_files e (FormBody c st images) w).
Qed.

(** * Worked examples *)

(** The selection on the sample table: at 09:45 the rows 2 and 3 are
    returned and row 1, scheduled for 10:00, is not. *)
Example select_due_sample :
  select_due "2025-01-01T09:45:00" sample_table
  = [(3, "pic", Some ["a.png"]); (2, oversized, None)].
Proof. vm_compute. reflexivity. Qed.

(** C2, as stated, fails: a content of three spaces is not empty, the time
    is in the future and there is no image, yet the submission is rejected
    and nothing is stored; and a submission that meets every condition is
    rejected as well when the database refuses the connection. *)
Lemma blank_content_is_rejected :
  "   " ≠ ""
  ∧ sample_fromisoformat "2030-01-01T00:00:00"
    = Some (Datetime 1893456000000000 None)
  ∧ wall (datetime_now sample_request_env None) < 1893456000000000
  ∧ schedule_tweet sample_request_env
      (JsonBody (Some "   ") (Some "2030-01-01T00:00:00") []) sample_world
    = (Ok (BadRequest "Tweet content is required"), sample_world)
  ∧ schedule_tweet broken_store_env
      (JsonBody (Some "Hello") (Some "2030-01-01T00:00:00") []) sample_world
    = (Ok (BadRequestExn DatabaseError), sample_world).
Proof. split_and!; [done | reflexivity | reflexivity | reflexivity | reflexivity]. Qed.

(** C2 at a submission that is accepted: the new row gets the id 4. *)
Lemma schedule_tweet_contract_witness :
  (schedule_tweet sample_request_env
     (JsonBody (Some " Hello ") (Some "2030-01-01T00:00:00") []) sample_world).1
  = Ok (Scheduled 4)
  ∧ tweets (schedule_tweet sample_request_env
      (JsonBody (Some " Hello ") (Some "2030-01-01T00:00:00") []) sample_world).2
    = <[4 := Row "Hello" "2030-01-01T00:00:00" 0 None "2025-01-01 12:00:00"]>
        sample_table.
Proof.
  destruct (schedule_tweet_contract sample_request_env
              (JsonBody (Some " Hello ") (Some "2030-01-01T00:00:00") [])
              sample_world) as (_ & _ & Hsuccess & Haccept & _ & _).
  assert ((schedule_tweet sample_request_env
             (JsonBody (Some " Hello ") (Some "2030-01-01T00:00:00") [])
             sample_world).1 = Ok (Scheduled 4)) as Hres.
  { apply Haccept; try done.
    - simpl. lia.
    - exists (Datetime 1893456000000000 None). split; [reflexivity|].
      vm_compute. reflexivity. }
  split; [exact Hres|].
  destruct (Hsuccess 4 Hres) as (_ & _ & Htable & _). exact Htable.
Defined.

(** The handler accepts a scheduled time equal to the clock. *)
Example scheduled_at_the_clock_is_accepted :
  sample_fromisoformat (replace_Z "2025-01-01T12:00:00Z")
  = Some (datetime_now sample_request_env (Some 0))
  ∧ (schedule_tweet sample_request_env
       (JsonBody (Some "Hello") (Some "2025-01-01T12:00:00Z") [])
       sample_world).1
    = Ok (Scheduled 4).
Proof. split; reflexivity. Qed.

(** C3, as stated, fails: without credentials the iteration leaves a due
    row of 281 characters pending. *)
Lemma oversized_stays_pending_without_client :
  tweets sample_world !! 2 = Some oversized_row
  ∧ is_due (now healthy_env) oversized_row = true
  ∧ String.length (content oversized_row) = 281%nat
  ∧ posted oversized_row = 0
  ∧ tweets (tick not_configured healthy_env sample_world).2 !! 2
    = Some oversized_row.
Proof. split_and!; vm_compute; reflexivity. Qed.

(** C3 with credentials: row 2 is marked, in this iteration and after two
    more. *)
Lemma oversized_marked_witness :
  tweets (check_and_post_tweets configured (λ _, healthy_env) 0 2
            (tick configured healthy_env sample_world).2).2 !! 2
  = Some (set_posted oversized_row).
Proof.
  refine (proj1 (oversized_marked_never_published configured healthy_env
                   sample_world 2 oversized_row _ _ _ _ _ _ _ _
                   (λ _, healthy_env) 0%nat 2%nat));
    try reflexivity.
  vm_compute. lia.
Defined.

(** C4 when every [create_tweet] raises: row 1 is still pending and is
    selected a minute later. *)
Lemma failed_publish_witness :
  tweets (tick configured failing_env sample_world).2 !! 1 = Some hello_row
  ∧ (1, "Hello", None)
    ∈ select_due "2025-01-01T12:01:00.000200"
        (tweets (tick configured failing_env sample_world).2).
Proof.
  destruct (failed_publish_leaves_pending configured failing_env sample_world
              1 hello_row TweepyException) as (Hrow & _ & Hagain);
    try reflexivity.
  { vm_compute. lia. }
  split; [exact Hrow|].
  apply (Hagain "2025-01-01T12:01:00.000200"). reflexivity.
Defined.

(** C5 on row 3, whose only image was never stored: nothing is uploaded,
    the text goes out without [media_ids] and the row is marked. *)
Lemma text_only_publish_witness :
  tweets (tick configured healthy_env sample_world).2 !! 3
  = Some (set_posted picture_row)
  ∧ CreateTweet "pic" None
    ∈ api_calls (tick configured healthy_env sample_world).2.
Proof.
  destruct (media_upload_tolerates_failures configured) as (_ & _ & _ & Hpost).
  apply (Hpost healthy_env sample_world 3 picture_row); try reflexivity.
  - vm_compute. lia.
  - by exists "999".
Defined.

(** C5 with three references: the first is missing, the upload of the second
    raises, the third succeeds and is the handle returned. *)
Example upload_skips_and_goes_on :
  (upload_media_to_twitter configured
     (λ n, if (n =? 1)%nat then Raise TweepyException else Ok (Z.of_nat n))
     ["a.png"; "b.png"; "c.png"]
     (World ∅ ∅ (<["uploads/b.png" := "B"]> (<["uploads/c.png" := "C"]> ∅))
        [] [])).1
  = Ok [2].
Proof. reflexivity. Qed.

(** C6 on row 3 with its image in the upload folder: the image is uploaded
    and its handle is passed to [create_tweet]; and on row 2: nothing is
    sent for a content of 281 characters. *)
Lemma publisher_witness :
  (∃ before after,
     api_calls (tick configured healthy_env picture_world).2
     = before ++ [MediaUpload "uploads/a.png"; CreateTweet "pic" (Some [7])]
         ++ after)
  ∧ api_calls (process_tweet configured healthy_env (2, oversized, None)
                 sample_world).2 = [].
Proof.
  destruct (publisher_validates_then_posts configured)
    as (_ & _ & _ & Hskip & _ & _ & Htick & _).
  split.
  - destruct (Htick healthy_env picture_world 3 picture_row)
      as (before & after & Hcalls); try reflexivity.
    { vm_compute. lia. }
    exists before, after. exact Hcalls.
  - apply (Hskip healthy_env 2 oversized None sample_world).
    vm_compute. lia.
Defined.

Example picture_row_is_posted_with_its_image :
  api_calls (tick configured healthy_env picture_world).2
  = [MediaUpload "uploads/a.png"; CreateTweet "pic" (Some [7]);
     CreateTweet "Hello" None].
Proof. vm_compute. reflexivity. Qed.


Example tick_with_failures :
  stdout (tick configured failing_env sample_world).2
  = [ImageFileNotFound "uploads/a.png"; ErrorPostingTweet 3 TweepyException;
     SkippingTweet 2; ErrorPostingTweet 1 TweepyException].
Proof. vm_compute. reflexivity. Qed.

(** C9 on row 2 (skipped for its size) and on row 1 (delivered): both end
    with [posted = 1]. *)
Lemma skipped_row_witness :
  tweets (tick configured healthy_env sample_world).2 !! 2
  = Some (set_posted oversized_row)
  ∧ to_json (2, set_posted oversized_row)
    ∈ get_tweets (tweets (tick configured healthy_env sample_world).2).
Proof.
  destruct (skipped_and_delivered_look_alike configured healthy_env
              sample_world 2 oversized_row) as (Hrow & _ & _ & Hlist);
    try reflexivity.
  { left. vm_compute. lia. }
  split; [exact Hrow|]. apply Hlist. vm_compute. lia.
Defined.

Example listing_after_one_iteration :
  (λ j, (json_id j, json_posted j))
    <$> get_tweets (tweets (tick configured healthy_env sample_world).2)
  = [(1, true); (3, true); (2, true)].
Proof. vm_compute. reflexivity. Qed.

(** C10 on a form with no content and one image: the response is the 400
    of the content test, the table is unchanged and the image is in the
    upload folder. *)
Lemma rejected_form_witness :
  validation_error (schedule_tweet sample_request_env
                      (FormBody None (Some "2030-01-01T00:00:00") [cat_png])
                      sample_world).1
  ∧ tweets (schedule_tweet sample_request_env
              (FormBody None (Some "2030-01-01T00:00:00") [cat_png])
              sample_world).2 = tweets sample_world
  ∧ is_Some (files (schedule_tweet sample_request_env
                      (FormBody None (Some "2030-01-01T00:00:00") [cat_png])
                      sample_world).2
             !! "uploads/20250101_120000_cat.png").
Proof.
  destruct (uploads_saved_before_validation sample_request_env None
              (Some "2030-01-01T00:00:00") [cat_png] sample_world)
    as (Hsaved & Hrejected & _ & _).
  assert (validation_error
            (schedule_tweet sample_request_env
               (FormBody None (Some "2030-01-01T00:00:00") [cat_png])
               sample_world).1) as Hval.
  { apply Hrejected; [reflexivity | by left]. }
  destruct (Hsaved Hval) as (_ & Hfiles & Htable).
  split_and!; [exact Hval | exact Htable |].
  apply (Hfiles 0%nat cat_png); done.
Defined.

(** A form with two images of which the second cannot be saved: the
    response is a 400 with the text of the exception, no row is stored, the
    first image is in the upload folder and the second is not. *)
Example second_save_fails :
  schedule_tweet second_save_fails_env
    (FormBody (Some "Hi") (Some "2030-01-01T00:00:00") [cat_png; dog_png])
    empty_world
  = (Ok (BadRequestExn OSError),
     World ∅ ∅ (<["uploads/20250101_120000_cat.png" := "PNG"]> ∅) [] []).
Proof. reflexivity. Qed.

(** C1 on a row scheduled for 13:00 and written with a space between date
    and time, which the parser of [schedule_tweet] accepts: submitted at
    11:00 it is stored, and the iteration of noon selects it and sends it,
    one hour before its scheduled time. *)
Lemma published_before_its_time :
  sample_fromisoformat "2025-01-01 13:00:00"
  = Some (Datetime 1735736400000000 None)
  ∧ sample_fromisoformat (now healthy_env)
    = Some (Datetime 1735732800000100 None)
  ∧ 1735732800000100 < 1735736400000000
  ∧ schedule_tweet eleven_env
      (JsonBody (Some "Lunch") (Some "2025-01-01 13:00:00") []) empty_world
    = (Ok (Scheduled 1),
       World (<[1 := Row "Lunch" "2025-01-01 13:00:00" 0 None
                        "2025-01-01 11:00:00"]> ∅)
         (<[1 := Row "Lunch" "2025-01-01 13:00:00" 0 None
                   "2025-01-01 11:00:00"]> ∅) ∅ [] [])
  ∧ select_due (now healthy_env)
      (<[1 := Row "Lunch" "2025-01-01 13:00:00" 0 None
                "2025-01-01 11:00:00"]> ∅)
    = [(1, "Lunch", None)]
  ∧ api_calls
      (tick configured healthy_env
         (schedule_tweet eleven_env
            (JsonBody (Some "Lunch") (Some "2025-01-01 13:00:00") [])
            empty_world).2).2
    = [CreateTweet "Lunch" None].
Proof. split_and!; first [reflexivity | lia]. Qed.

(** * Further properties of the code *)

(** ** The selection *)

(** The selection grows with time: a row selected at [now] is selected at
    every later [now'], as long as it is pending. *)
Theorem select_due_monotone (t : table) (now now' : string) tw :
  String.leb now now' = true →
  tw ∈ select_due now t → tw ∈ select_due now' t.
Proof.
  intros Hle. rewrite !elem_of_select_due.
  intros (i & r & Hi & [Hp Hdue]%is_due_spec & ->). exists i, r.
  split_and!; [done| |done]. apply is_due_spec. split; [done|].
  by eapply string_leb_trans.
Qed.

(** After [UPDATE tweets SET posted = 1 WHERE id = ?] the selection returns
    what it returned before, without the row of that id. *)
Theorem select_due_after_update (now : string) (t : table) (tweet_id : Z) tw :
  tw ∈ select_due now (update_posted tweet_id t) ↔
  tw ∈ select_due now t ∧ tw.1.1 ≠ tweet_id.
Proof.
  rewrite !elem_of_select_due. split.
  - intros (i & r & Hi & Hdue & ->). rewrite update_posted_lookup in Hi.
    case_decide as Hid.
    + subst i. destruct (t !! tweet_id) as [r0|]; [|done].
      injection Hi as <-. by rewrite is_due_not_pending in Hdue.
    + split; [by exists i, r | simpl; congruence].
  - intros [(i & r & Hi & Hdue & ->) Hne]. simpl in Hne. exists i, r.
    split_and!; [|done..]. rewrite update_posted_lookup.
    by rewrite decide_False by congruence.
Qed.

(** ** The listing *)

Global Instance later_first_total : Total later_first.
Proof.
  intros p q. unfold later_first.
  destruct (String.leb_total (scheduled_time q.2) (scheduled_time p.2)) as [H|H];
    rewrite H; [left|right]; done.
Qed.

Global Instance later_first_trans : Transitive later_first.
Proof.
  intros p q r. unfold later_first. rewrite !Is_true_true.
  intros Hqp Hrq. by eapply string_leb_trans.
Qed.

(** [get_tweets] returns at most 50 entries, each the image of a stored row,
    no id twice, latest scheduled time first; every row it leaves out is
    scheduled no later than every row it shows, and a table of at most 50
    rows is shown whole. *)
Theorem get_tweets_listing (t : table) :
  (length (get_tweets t) ≤ 50)%nat
  ∧ length (get_tweets t) = Nat.min 50 (size t)
  ∧ (∀ j, j ∈ get_tweets t → ∃ i r, t !! i = Some r ∧ j = to_json (i, r))
  ∧ NoDup (json_id <$> get_tweets t)
  ∧ StronglySorted listed_before (get_tweets t)
  ∧ (∀ i r j, t !! i = Some r → to_json (i, r) ∉ get_tweets t →
              j ∈ get_tweets t →
              String.leb (scheduled_time r) (json_scheduled_time j) = true).
Proof.
  pose proof (StronglySorted_merge_sort later_first (map_to_list t)) as Hsorted.
  pose proof (merge_sort_Permutation later_first (map_to_list t)) as Hperm.
  assert (length (get_tweets t) = Nat.min 50 (size t)) as Hlen.
  { unfold get_tweets.
    by rewrite length_fmap, length_take, Hperm, length_map_to_list. }
  rewrite <- (take_drop 50 (merge_sort later_first (map_to_list t))) in Hsorted.
  split_and!.
  - lia.
  - done.
  - apply elem_of_get_tweets.
  - unfold get_tweets. rewrite <- list_fmap_compose.
    apply (NoDup_fmap_2_strong (json_id ∘ to_json)).
    + intros [i r] [i' r'] Hi Hi' Heq. simpl in Heq. subst i'.
      apply subseteq_take in Hi, Hi'. rewrite Hperm in Hi, Hi'.
      apply elem_of_map_to_list in Hi, Hi'. congruence.
    + eapply sublist_NoDup; [|apply sublist_take].
      rewrite Hperm. apply NoDup_map_to_list.
  - unfold get_tweets. apply StronglySorted_app_1_l in Hsorted.
    eapply StronglySorted_fmap; [|exact Hsorted].
    intros p q Hpq. unfold listed_before, later_first in *. simpl.
    by apply Is_true_true.
  - intros i r j Hi Hout Hj. unfold get_tweets in Hout, Hj.
    apply list_elem_of_fmap in Hj as (q & -> & Hq).
    assert ((i, r) ∈ drop 50 (merge_sort later_first (map_to_list t))) as Hdrop.
    { assert ((i, r) ∈ merge_sort later_first (map_to_list t)) as Hin.
      { rewrite Hperm. by apply elem_of_map_to_list. }
      rewrite <- (take_drop 50) in Hin. apply elem_of_app in Hin as [Hin|Hin];
        [|done].
      destruct Hout. apply list_elem_of_fmap. by exists (i, r). }
    pose proof (StronglySorted_app_1_elem_of _ _ _ q (i, r) Hsorted Hq Hdrop)
      as Hrel.
    unfold later_first in Hrel. simpl in *. by apply Is_true_true.
Qed.

(** ** The scheduler *)

(** The scheduler writes nothing but the mark: an iteration leaves every row
    as it was, or, for a row that was due while the client is configured,
    as it was with [posted = 1]; it adds and removes no row and no file, and
    the same holds after any number of iterations. *)
Theorem scheduler_only_marks (cfg : config) (w : world) :
  (∀ (e : tick_env) (i : Z),
     tweets (tick cfg e w).2 !! i = tweets w !! i
     ∨ ∃ r, tweets w !! i = Some r ∧ is_due (now e) r = true
            ∧ client cfg = true
            ∧ tweets (tick cfg e w).2 !! i = Some (set_posted r))
  ∧ (∀ (env : nat → tick_env) (k n : nat) (i : Z),
       tweets (check_and_post_tweets cfg env k n w).2 !! i = tweets w !! i
       ∨ tweets (check_and_post_tweets cfg env k n w).2 !! i
         = set_posted <$> tweets w !! i)
  ∧ (∀ (env : nat → tick_env) (k n : nat),
       dom (tweets (check_and_post_tweets cfg env k n w).2) = dom (tweets w)
       ∧ files (check_and_post_tweets cfg env k n w).2 = files w).
Proof.
  split_and!.
  - intros e i. destruct (tweets w !! i) as [r|] eqn:Hi.
    + destruct (is_due (now e) r) eqn:Hdue.
      * destruct (client cfg) eqn:Hcl.
        -- destruct (tick_only_marks cfg e w i) as [Ht | Ht]; rewrite Hi in Ht;
             [by left | right; by exists r].
        -- left. destruct (tick_disabled cfg e w) as (-> & _); [by left|done].
      * left. apply tick_not_due; [done|]. by intros r' [= <-].
    + left. by apply tick_not_due.
  - intros env k n i. apply loop_only_marks.
  - intros env k n. split.
    + apply set_eq. intros i. rewrite !elem_of_dom.
      destruct (loop_only_marks cfg env n k w i) as [-> | ->]; [done|].
      by rewrite fmap_is_Some.
    + revert k w. induction n as [|n IH]; intros k w0; [done|].
      by rewrite loop_step, IH, tick_files.
Qed.

(** Without a client, or when the connection or the selection raises, an
    iteration sends nothing and leaves the table and the files as they
    were. *)
Theorem nothing_published_when_disabled (cfg : config) (e : tick_env)
    (w : world) :
  client cfg = false ∨ is_Some (connect_fault e) ∨ is_Some (select_fault e) →
  tweets (tick cfg e w).2 = tweets w
  ∧ files (tick cfg e w).2 = files w
  ∧ api_calls (tick cfg e w).2 = api_calls w.
Proof.
  intros Hoff. rewrite tick_run.
  destruct (connect_fault e) as [ex|]; [done|]. cbv zeta.
  destruct (select_fault e) as [ex|]; [done|].
  destruct Hoff as [Hcl | [[? [=]] | [? [=]]]].
  destruct (for_each_no_client cfg e (select_due (now e) (tweets w))
              (set_conn (tweets w) w) Hcl) as (Ht & _ & Hf & Hc).
  by destruct (close_fault e).
Qed.

(** The texts an iteration sends with [create_tweet] are contents of the
    rows it selected, in the order of the selection and at most one per
    row. *)
Theorem tick_posts_due_contents_once (cfg : config) (e : tick_env)
    (w : world) :
  ∃ calls, api_calls (tick cfg e w).2 = api_calls w ++ calls
    ∧ texts_posted calls `sublist_of` (select_due (now e) (tweets w)).*1.*2
    ∧ (length (texts_posted calls)
       ≤ length (select_due (now e) (tweets w)))%nat.
Proof.
  assert (∃ calls, api_calls (tick cfg e w).2 = api_calls w ++ calls
    ∧ texts_posted calls `sublist_of` (select_due (now e) (tweets w)).*1.*2)
    as (calls & Hcalls & Hsub).
  { rewrite tick_run.
    destruct (connect_fault e);
      [exists []; split; [by rewrite app_nil_r | apply sublist_nil_l]|].
    cbv zeta.
    destruct (select_fault e);
      [exists []; split; [by rewrite app_nil_r | apply sublist_nil_l]|].
    destruct (for_each_texts cfg e (select_due (now e) (tweets w))
                (set_conn (tweets w) w)) as (calls & Hc & Hs).
    exists calls. by destruct (close_fault e). }
  exists calls. split_and!; [done..|].
  apply sublist_length in Hsub. by rewrite !length_fmap in Hsub.
Qed.

(** When [create_tweet] answers for a due row and the [UPDATE] that follows
    raises, the text has been sent and the row is still pending: every later
    selection returns it again, so it will be sent again. *)
Theorem sent_but_not_marked (cfg : config) (e : tick_env) (w : world)
    (i : Z) (r : row) (id : string) (ex : exn) :
  client cfg = true →
  connect_fault e = None → select_fault e = None →
  tweets w !! i = Some r → is_due (now e) r = true →
  (String.length (content r) ≤ 280)%nat →
  tweet_outcome e i = Ok id → update_fault e i = Some ex →
  (∃ calls, api_calls (tick cfg e w).2 = api_calls w ++ calls
            ∧ content r ∈ texts_posted calls)
  ∧ tweets (tick cfg e w).2 !! i = Some r
  ∧ ∀ now', String.leb (now e) now' = true →
      (i, content r, image_paths r) ∈ select_due now' (tweets (tick cfg e w).2).
Proof.
  intros Hcl Hc Hs Hi Hdue Hlen Hok Hup.
  destruct (tick_row_calls cfg e w i r Hc Hs Hi Hdue)
    as (w1 & before & after & [Ht1 Hc1] & _ & Hbefore & Hrow & Hcalls).
  destruct (process_tweet_update_fails cfg e i (content r) (image_paths r)
              id ex w1 Hcl Hlen Hok Hup)
    as (Htw & Hconn & calls & Hrowcalls & Hsent).
  assert (tweets (tick cfg e w).2 !! i = Some r) as Htick.
  { apply Hrow. split; rewrite ?Htw, ?Hconn; done. }
  split_and!; [|done|].
  - exists (before ++ calls ++ after). split; [by apply Hcalls|].
    rewrite !texts_posted_app, !elem_of_app. auto.
  - intros now' Hnow. apply elem_of_select_due. exists i, r.
    apply is_due_spec in Hdue as [Hp Hle].
    split_and!; [done| |done]. apply is_due_spec. split; [done|].
    by eapply string_leb_trans.
Qed.

(** ** The submission *)

(** [schedule_tweet] always answers, never calls the remote API and never
    changes or removes a row that exists; the id it returns is positive and
    above every id in use, and the table then has that one row more. *)
Theorem schedule_tweet_keeps_rows (e : request_env) (rq : request)
    (w : world) :
  (∃ resp, (schedule_tweet e rq w).1 = Ok resp)
  ∧ api_calls (schedule_tweet e rq w).2 = api_calls w
  ∧ (∀ j r, tweets w !! j = Some r →
            tweets (schedule_tweet e rq w).2 !! j = Some r)
  ∧ (∀ i, (schedule_tweet e rq w).1 = Ok (Scheduled i) →
          0 < i ∧ (∀ j, is_Some (tweets w !! j) → j < i)
          ∧ dom (tweets (schedule_tweet e rq w).2) = {[i]} ∪ dom (tweets w)).
Proof.
  split_and!.
  - schedule_cases e rq w; by eexists.
  - schedule_cases e rq w; done.
  - intros j r Hj.
    destruct ((schedule_tweet e rq w).1) as [[i| | | |]|ex] eqn:Hres.
    + apply schedule_tweet_success in Hres as [-> ->].
      rewrite lookup_insert_ne; [done|].
      intros Heq. rewrite <- Heq, lastrowid_fresh in Hj. done.
    + rewrite schedule_tweet_keeps_table; [done|]. intros i. by rewrite Hres.
    + rewrite schedule_tweet_keeps_table; [done|]. intros i. by rewrite Hres.
    + rewrite schedule_tweet_keeps_table; [done|]. intros i. by rewrite Hres.
    + rewrite schedule_tweet_keeps_table; [done|]. intros i. by rewrite Hres.
    + rewrite schedule_tweet_keeps_table; [done|]. intros i. by rewrite Hres.
  - intros i Hres. apply schedule_tweet_success in Hres as [-> ->].
    split_and!.
    + pose proof (max_id_nonneg (tweets w)). unfold lastrowid. lia.
    + intros j Hj. apply max_id_upper in Hj. unfold lastrowid. lia.
    + by rewrite dom_insert_L.
Qed.

(** A row that was just scheduled is selected exactly from the moment [now]
    reaches its scheduled time, the selection of the other rows is what it
    was, and the listing of a table of at most 50 rows shows the new row
    with [posted = false] and with the image names of the request. *)
Theorem scheduled_row_round_trip (e : request_env) (rq : request) (w : world)
    (i : Z) :
  (schedule_tweet e rq w).1 = Ok (Scheduled i) →
  (∀ now,
     (i, content_of rq, image_paths_json_of (image_paths_of e rq))
       ∈ select_due now (tweets (schedule_tweet e rq w).2)
     ↔ String.leb (scheduled_time_of rq) now = true)
  ∧ (∀ now tw, tw.1.1 ≠ i →
       tw ∈ select_due now (tweets (schedule_tweet e rq w).2)
       ↔ tw ∈ select_due now (tweets w))
  ∧ ((size (tweets (schedule_tweet e rq w).2) ≤ 50)%nat →
     ∃ j, j ∈ get_tweets (tweets (schedule_tweet e rq w).2)
          ∧ json_id j = i ∧ json_content j = content_of rq
          ∧ json_scheduled_time j = scheduled_time_of rq
          ∧ json_posted j = false
          ∧ json_image_paths j = image_paths_of e rq).
Proof.
  intros Hres. apply schedule_tweet_success in Hres as [-> Ht].
  rewrite Ht. set (i := lastrowid (tweets w)).
  set (r := Row (content_of rq) (scheduled_time_of rq) 0
              (image_paths_json_of (image_paths_of e rq))
              (current_timestamp e)).
  split_and!.
  - intros now. rewrite elem_of_select_due. split.
    + intros (j & r' & Hj & Hdue & [= <- _ _]).
      rewrite lookup_insert_eq in Hj. injection Hj as <-.
      by apply is_due_spec in Hdue as [_ ?].
    + intros Hle. exists i, r. rewrite lookup_insert_eq.
      split_and!; [done| |done]. by apply is_due_spec.
  - intros now [[j c] p] Hne. simpl in Hne. rewrite !elem_of_select_due.
    split; intros (j' & r' & Hj & Hdue & [= <- -> ->]); exists j, r'.
    + by rewrite lookup_insert_ne in Hj.
    + by rewrite lookup_insert_ne.
  - intros Hsize. exists (to_json (i, r)). split.
    + apply get_tweets_small; [done|]. by rewrite lookup_insert_eq.
    + simpl. by rewrite image_paths_json_of_default.
Qed.

(** The files of a form are found again by the upload helper: when every
    [file.save] succeeds, which is the case whenever the form is accepted,
    every stored name resolves to a file of the upload folder after the
    request, so every reference of the row will be sent to the remote API;
    there is one stored name per file that came with a name. *)
Theorem stored_files_are_found (e : request_env) (c st : option string)
    (images : list file_storage) (w : world) :
  (∀ i, (schedule_tweet e (FormBody c st images) w).1 = Ok (Scheduled i) →
        uploads_raise e 0 images = None)
  ∧ (uploads_raise e 0 images = None →
     Forall (λ p, stored (files (schedule_tweet e (FormBody c st images) w).2)
                    p = true)
       (image_paths_of e (FormBody c st images))
     ∧ ∀ cfg, api_v1 cfg = true →
         calls_of_upload cfg
           (files (schedule_tweet e (FormBody c st images) w).2)
           (image_paths_of e (FormBody c st images))
         = (λ p, MediaUpload (path_join UPLOAD_FOLDER p))
             <$> image_paths_of e (FormBody c st images))
  ∧ length (image_paths_of e (FormBody c st images))
    = length (filter (λ f, filename f ≠ "") images).
Proof.
  split_and!.
  - intros i Hres.
    assert (request_raises e (FormBody c st images) = None) as Hsv; [|done].
    revert Hres. schedule_cases e (FormBody c st images) w; done.
  - intros Hsv.
    rewrite (schedule_tweet_files e (FormBody c st images) w). simpl.
    rewrite (files_left_all_saved e images 0 (files w) Hsv).
    assert (Forall (λ p, stored (files_after_saving e 0 images (files w)) p
                         = true)
              (stored_names e 0 images)) as Hall.
    { apply Forall_forall. intros p Hp. unfold stored.
      apply bool_decide_eq_true. by apply stored_names_saved. }
    split; [done|].
    intros cfg Hapi. unfold calls_of_upload, uploads_attempted. rewrite Hapi.
    f_equal. apply filter_all.
    eapply Forall_impl; [exact Hall|]. intros p ->. done.
  - apply stored_names_length.
Qed.

(** ** The immediate publish *)

(** [post_now] always answers and never writes the table; without a client
    it answers 500 and does nothing else, not even saving the files of the
    form; with a client it saves the files of the form first, all of them
    unless a [file.save] raises; it answers with the id of the new tweet
    exactly when the client is configured, every file could be saved, the
    stripped content has between 1 and 280 characters, there are at most 4
    images and [create_tweet] answers, and it has then sent the content
    once. *)
Theorem post_now_outcome (cfg : config) (e : request_env) (rq : request)
    (w : world) :
  (∃ resp, (post_now cfg e rq w).1 = Ok resp)
  ∧ tweets (post_now cfg e rq w).2 = tweets w
  ∧ (client cfg = false →
     post_now cfg e rq w
     = (Ok (ServerError "Twitter API credentials not configured"), w))
  ∧ (client cfg = true →
     files (post_now cfg e rq w).2 = files_left_by_request e rq (files w)
     ∧ (request_raises e rq = None →
        files (post_now cfg e rq w).2 = files_after_request e rq (files w))
     ∧ (∀ ex, request_raises e rq = Some ex →
              (post_now cfg e rq w).1 = Ok (BadRequestExn ex)
              ∧ api_calls (post_now cfg e rq w).2 = api_calls w))
  ∧ (∀ id, (post_now cfg e rq w).1 = Ok (PostedNow id) ↔
       client cfg = true ∧ request_raises e rq = None
       ∧ content_of rq ≠ ""
       ∧ (String.length (content_of rq) ≤ 280)%nat
       ∧ (length (image_paths_of e rq) ≤ 4)%nat
       ∧ rq_tweet_outcome e = Ok id)
  ∧ (∀ id, (post_now cfg e rq w).1 = Ok (PostedNow id) →
       ∃ calls, api_calls (post_now cfg e rq w).2 = api_calls w ++ calls
                ∧ texts_posted calls = [content_of rq]).
Proof.
  split_and!.
  - post_now_cases cfg e rq w; by eexists.
  - post_now_cases cfg e rq w; done.
  - intros Hcl. rewrite post_now_run, Hcl. done.
  - intros Hcl. split_and!.
    + post_now_cases cfg e rq w; done.
    + intros Hsv. rewrite <- (files_left_by_request_all_saved e rq (files w) Hsv).
      post_now_cases cfg e rq w; done.
    + intros ex0 Hex. post_now_cases cfg e rq w; try done.
      by simplify_eq.
  - intros id. post_now_cases cfg e rq w; split;
      try done; try (by intros [= <-]);
      intros (Hcl & Hsv & Hc & Hl & Hi & Ho);
      try done; try lia; by simplify_eq.
  - intros id. post_now_cases cfg e rq w; try done; intros _;
      rewrite <- ?app_assoc; eexists; (split; [reflexivity|]);
      rewrite ?texts_posted_app, ?texts_posted_uploads; done.
Qed.

(** [post_now] only uploads from the upload folder: it keeps the last
    segment of every path it is given, so every path it sends to
    [media_upload] is [uploads/] followed by a name without [/]. *)
Theorem post_now_uploads_from_folder (cfg : config) (e : request_env)
    (rq : request) (w : world) :
  ∃ calls, api_calls (post_now cfg e rq w).2 = api_calls w ++ calls
    ∧ Forall (λ path, ∃ name, path = "uploads/" +:+ name
                              ∧ contains "/" name = false)
        (paths_uploaded calls).
Proof.
  assert (∀ fs, Forall (λ path, ∃ name, path = "uploads/" +:+ name
                                        ∧ contains "/" name = false)
            (paths_uploaded
               (calls_of_upload cfg fs (file_name_of <$> image_paths_of e rq))))
    as Hup.
  { intros fs. apply Forall_forall. intros path Hpath.
    apply paths_uploaded_uploads in Hpath as (name & Hname & ->).
    apply list_elem_of_fmap in Hname as (p & -> & _).
    exists (file_name_of p). split; [|apply file_name_of_no_slash].
    apply path_join_relative, file_name_of_no_slash. }
  rewrite post_now_run.
  destruct (client cfg); unfold negb; cbv iota zeta;
    [|exists []; by rewrite app_nil_r].
  destruct (request_raises e rq); [exists []; by rewrite app_nil_r|].
  case_bool_decide; [exists []; by rewrite app_nil_r|].
  destruct (280 <? String.length (content_of rq))%nat;
    [exists []; by rewrite app_nil_r|].
  destruct (4 <? length (image_paths_of e rq))%nat;
    [exists []; by rewrite app_nil_r|].
  destruct (file_name_of <$> image_paths_of e rq) as [|name names] eqn:Hnames;
    destruct (rq_tweet_outcome e); simpl;
    rewrite <- ?app_assoc; eexists; (split; [reflexivity|]);
    rewrite ?paths_uploaded_app; simpl; rewrite ?app_nil_r;
    first [done | apply Hup].
Qed.

(** ** The clients *)

(** [api_v1] is never initialised without [client]; when a credential is
    missing or empty neither is, nothing is printed, and then the scheduler
    sends nothing and [post_now] answers 500; both are initialised exactly
    when all five credentials are set and the three constructors succeed. *)
Theorem clients_initialised_together (c : credentials) (t : tweepy_env) :
  (api_v1 (init_clients c t).1 = true → client (init_clients c t).1 = true)
  ∧ (client (init_clients c t).1 = true ↔
     all_set c = true ∧ client_fault t = None)
  ∧ (api_v1 (init_clients c t).1 = true ↔
     all_set c = true ∧ client_fault t = None ∧ auth_fault t = None
     ∧ api_fault t = None)
  ∧ (all_set c = false →
     init_clients c t = (Config false false, None)
     ∧ (∀ (e : tick_env) (w : world),
          tweets (tick (init_clients c t).1 e w).2 = tweets w
          ∧ api_calls (tick (init_clients c t).1 e w).2 = api_calls w)
     ∧ (∀ (e : request_env) (rq : request) (w : world),
          post_now (init_clients c t).1 e rq w
          = (Ok (ServerError "Twitter API credentials not configured"), w))).
Proof.
  split_and!.
  - unfold init_clients.
    by destruct (all_set c), (client_fault t), (auth_fault t), (api_fault t).
  - unfold init_clients.
    destruct (all_set c), (client_fault t), (auth_fault t), (api_fault t);
      simpl; split; try done; intros [? ?]; congruence.
  - unfold init_clients.
    destruct (all_set c), (client_fault t), (auth_fault t), (api_fault t);
      simpl; split; try done; intros (? & ? & ? & ?); congruence.
  - intros Hall. unfold init_clients. rewrite Hall. simpl.
    split_and!; [done| |done].
    intros e w.
    destruct (tick_disabled (Config false false) e w) as (? & _ & ?);
      [by left|done].
Qed.

(** ** The rows the program writes *)

(** Every row the program writes has a content and a scheduled time that are
    not empty, a flag that is 0 or 1, and NULL or between one and four image
    names: this holds of the empty table and is kept by [schedule_tweet], by
    [post_now] and by any number of iterations of the scheduler.  In such a
    table, marking a row that is not pending changes nothing. *)
Theorem table_ok_invariant :
  table_ok ∅
  ∧ (∀ (e : request_env) (rq : request) (w : world),
       table_ok (tweets w) → table_ok (tweets (schedule_tweet e rq w).2))
  ∧ (∀ (cfg : config) (e : request_env) (rq : request) (w : world),
       table_ok (tweets w) → table_ok (tweets (post_now cfg e rq w).2))
  ∧ (∀ (cfg : config) (env : nat → tick_env) (k n : nat) (w : world),
       table_ok (tweets w) →
       table_ok (tweets (check_and_post_tweets cfg env k n w).2))
  ∧ (∀ (t : table) (i : Z) (r : row),
       table_ok t → t !! i = Some r → ¬ pending r → update_posted i t = t).
Proof.
  split_and!.
  - intros i r Hi. by rewrite lookup_empty in Hi.
  - intros e rq w Hok i r Hi.
    destruct ((schedule_tweet e rq w).1) as [[j| | | |]|ex] eqn:Hres.
    2-6: rewrite schedule_tweet_keeps_table in Hi;
           [by eapply Hok | intros j; by rewrite Hres].
    pose proof (schedule_tweet_success_valid e rq w j Hres) as (Hc & Hst & Hn).
    apply schedule_tweet_success in Hres as [-> Ht]. rewrite Ht in Hi.
    rewrite lookup_insert in Hi. case_decide; [|by eapply Hok].
    injection Hi as <-. split_and!; simpl; auto.
    + apply image_paths_json_of_ok.
    + by rewrite image_paths_json_of_default.
  - intros cfg e rq w Hok.
    assert (tweets (post_now cfg e rq w).2 = tweets w) as ->; [|done].
    post_now_cases cfg e rq w; done.
  - intros cfg env k n w Hok i r Hi.
    destruct (loop_only_marks cfg env n k w i) as [Heq | Heq];
      rewrite Heq in Hi.
    + by eapply Hok.
    + destruct (tweets w !! i) as [r0|] eqn:Hr0; [|done].
      injection Hi as <-. apply row_ok_set_posted. by eapply Hok.
  - intros t i r Hok Hi Hnp. destruct (Hok i r Hi) as (_ & _ & Hp & _).
    destruct Hp as [Hp | Hp]; [done|].
    apply map_eq. intros j. rewrite update_posted_lookup.
    case_decide; [|done]. subst j. rewrite Hi. simpl. f_equal.
    destruct r; simpl in *; by subst.
Qed.

(** No [create_tweet] call carries more than four media ids: not from
    [post_now], which counts the images first, and not from an iteration of
    the scheduler over a table whose rows hold at most four image names. *)
Theorem media_ids_at_most_four (cfg : config) :
  (∀ (e : request_env) (rq : request) (w : world),
     ∃ calls, api_calls (post_now cfg e rq w).2 = api_calls w ++ calls
              ∧ Forall at_most_four_media calls)
  ∧ (∀ (e : tick_env) (w : world),
       table_ok (tweets w) →
       ∃ calls, api_calls (tick cfg e w).2 = api_calls w ++ calls
                ∧ Forall at_most_four_media calls).
Proof.
  split.
  - apply post_now_at_most_four.
  - intros e w Hok. rewrite tick_run.
    destruct (connect_fault e); [exists []; by rewrite app_nil_r|]. cbv zeta.
    destruct (select_fault e); [exists []; by rewrite app_nil_r|].
    destruct (for_each_at_most_four cfg e (select_due (now e) (tweets w))
                (set_conn (tweets w) w)) as (calls & Hc & Hw).
    { apply Forall_forall. intros tw Htw.
      apply elem_of_select_due in Htw as (i & r & Hi & _ & ->). simpl.
      by destruct (Hok i r Hi) as (_ & _ & _ & _ & ?). }
    exists calls. by destruct (close_fault e).
Qed.

(** When the client is configured, the database works and [create_tweet]
    answers for every due row of at most 280 characters, an iteration
    leaves nothing due at its own time: every row it selected is marked. *)
Theorem healthy_tick_drains (cfg : config) (e : tick_env) (w : world) :
  client cfg = true →
  connect_fault e = None → select_fault e = None →
  (∀ i, update_fault e i = None ∧ commit_fault e i = None) →
  (∀ i r, tweets w !! i = Some r → is_due (now e) r = true →
          (String.length (content r) ≤ 280)%nat →
          ∃ id, tweet_outcome e i = Ok id) →
  select_due (now e) (tweets (tick cfg e w).2) = [].
Proof.
  intros Hcl Hc Hs Hdb Hapi.
  destruct (select_due (now e) (tweets (tick cfg e w).2)) as [|tw l] eqn:Hsel;
    [done|].
  assert (tw ∈ select_due (now e) (tweets (tick cfg e w).2)) as Hin
    by (rewrite Hsel; by left).
  apply elem_of_select_due in Hin as (i & r' & Hi' & Hdue' & _).
  destruct (tick_only_marks cfg e w i) as [Heq | Heq]; rewrite Hi' in Heq.
  - symmetry in Heq.
    destruct (tick_row cfg e w i r' Hc Hs Heq Hdue')
      as (w1 & [_ Hw1] & _ & Hrow & _).
    destruct (Hdb i) as [Hu Hco].
    assert (tweets (tick cfg e w).2 !! i = Some (set_posted r')) as Hmarked.
    { apply Hrow.
      destruct (process_tweet_marks cfg e i (content r') (image_paths r') w1)
        as [Hconn Htw]; [done..| |].
      - destruct (decide (String.length (content r') ≤ 280)%nat);
          [right; by eapply Hapi | left; lia].
      - split; rewrite ?Hconn, ?Htw, update_posted_lookup, decide_True, Hw1;
          done. }
    rewrite Hi' in Hmarked. injection Hmarked as Hr'.
    rewrite Hr' in Hdue'. by rewrite is_due_not_pending in Hdue'.
  - destruct (tweets w !! i) as [r0|]; [|done]. injection Heq as ->.
    by rewrite is_due_not_pending in Hdue'.
Qed.

(** ** Worked examples of the further properties *)

(** Row 2, due at 09:45, is still selected at noon. *)
Lemma select_due_monotone_witness :
  (2, oversized, None) ∈ select_due "2025-01-01T12:00:00" sample_table.
Proof.
  apply (select_due_monotone sample_table "2025-01-01T09:45:00"
           "2025-01-01T12:00:00"); [reflexivity|].
  vm_compute. right. left.
Defined.

(** When the database refuses the connection nothing is sent and the table
    is as it was. *)
Lemma no_connection_witness :
  tweets (tick configured no_connection_env sample_world).2 = sample_table
  ∧ api_calls (tick configured no_connection_env sample_world).2 = [].
Proof.
  destruct (nothing_published_when_disabled configured no_connection_env
              sample_world) as (Ht & _ & Hc).
  - right. left. by eexists.
  - split; [exact Ht | exact Hc].
Defined.

(** When every [UPDATE] raises, "Hello" is sent and row 1 is still
    pending. *)
Lemma sent_but_not_marked_witness :
  (∃ calls, api_calls (tick configured update_raises_env sample_world).2
            = api_calls sample_world ++ calls
            ∧ "Hello" ∈ texts_posted calls)
  ∧ tweets (tick configured update_raises_env sample_world).2 !! 1
    = Some hello_row.
Proof.
  destruct (sent_but_not_marked configured update_raises_env sample_world
              1 hello_row "999" DatabaseError) as (Hsent & Hrow & _);
    try reflexivity.
  { vm_compute. lia. }
  split; [exact Hsent | exact Hrow].
Defined.

Example two_iterations_send_twice :
  texts_posted
    (api_calls (check_and_post_tweets configured (λ _, update_raises_env) 0 2
                  (World (<[1 := hello_row]> ∅) ∅ ∅ [] [])).2)
  = ["Hello"; "Hello"].
Proof. vm_compute. reflexivity. Qed.

(** A row scheduled for 2030 is selected in 2031 and not in 2029. *)
Lemma scheduled_row_round_trip_witness :
  (4, "Hello", None)
    ∈ select_due "2031-01-01T00:00:00"
        (tweets (schedule_tweet sample_request_env
                   (JsonBody (Some "Hello") (Some "2030-01-01T00:00:00") [])
                   sample_world).2)
  ∧ (4, "Hello", None)
    ∉ select_due "2029-01-01T00:00:00"
        (tweets (schedule_tweet sample_request_env
                   (JsonBody (Some "Hello") (Some "2030-01-01T00:00:00") [])
                   sample_world).2).
Proof.
  destruct (scheduled_row_round_trip sample_request_env
              (JsonBody (Some "Hello") (Some "2030-01-01T00:00:00") [])
              sample_world 4) as (Hsel & _ & _); [reflexivity|].
  split.
  - apply (Hsel "2031-01-01T00:00:00"). reflexivity.
  - intros Hin. apply (Hsel "2029-01-01T00:00:00") in Hin. discriminate Hin.
Defined.

(** The sample table is one the program can have written, so an iteration
    over it sends at most four media ids per call. *)
Lemma media_ids_at_most_four_witness :
  ∃ calls, api_calls (tick configured healthy_env sample_world).2
           = api_calls sample_world ++ calls
           ∧ Forall at_most_four_media calls.
Proof.
  destruct (media_ids_at_most_four configured) as [_ Htick].
  apply (Htick healthy_env sample_world).
  intros i r Hi. change (tweets sample_world) with sample_table in Hi.
  unfold sample_table in Hi.
  rewrite !lookup_insert in Hi.
  repeat case_decide; simplify_eq;
    repeat split; simpl; try done; try lia; auto.
Defined.

(** After a healthy iteration at noon nothing is due at noon. *)
Lemma healthy_tick_drains_witness :
  select_due (now healthy_env)
    (tweets (tick configured healthy_env sample_world).2) = [].
Proof.
  apply healthy_tick_drains; try reflexivity.
  - intros i. split; reflexivity.
  - intros i r _ _ _. by exists "999".
Defined.

(** Two files of a form, one of them without a name: one name is stored and
    its file is in the upload folder. *)
Example form_with_unnamed_part :
  image_paths_of sample_request_env
    (FormBody (Some "Hi") (Some "2030-01-01T00:00:00")
       [FileStorage "" ""; dog_png])
  = ["20250101_120000_dog.png"]
  ∧ files (schedule_tweet sample_request_env
             (FormBody (Some "Hi") (Some "2030-01-01T00:00:00")
                [FileStorage "" ""; dog_png]) sample_world).2
      !! "uploads/20250101_120000_dog.png" = Some "PNG2".
Proof. split; reflexivity. Qed.

(** [post_now] keeps the last segment of a path. *)
Example post_now_strips_directories :
  paths_uploaded
    (api_calls (post_now configured sample_request_env
                  (JsonBody (Some "Hi") None ["/etc/passwd"; "a\b.png"])
                  (World ∅ ∅ (<["uploads/passwd" := "x"]>
                                (<["uploads/b.png" := "y"]> ∅)) [] [])).2)
  = ["uploads/passwd"; "uploads/b.png"].
Proof. vm_compute. reflexivity. Qed.

(** An accepted form with one named image: its stored name resolves. *)
Lemma stored_files_witness :
  Forall (λ p, stored (files (schedule_tweet sample_request_env
                                (FormBody (Some "Hi")
                                   (Some "2030-01-01T00:00:00")
                                   [FileStorage "" ""; dog_png])
                                sample_world).2) p = true)
    ["20250101_120000_dog.png"].
Proof.
  destruct (stored_files_are_found sample_request_env (Some "Hi")
              (Some "2030-01-01T00:00:00") [FileStorage "" ""; dog_png]
              sample_world) as (_ & Hfound & _).
  destruct (Hfound eq_refl) as [Hall _]. exact Hall.
Defined.
